(** * HomeKit producer client of go2rtc (pkg/homekit/client.go)

    A shallow embedding of the [Client] orchestrator: capability
    negotiation ([GetMedias]), the producer life cycle ([Start], [Stop]),
    status reporting ([MarshalJSON]), the still-image polling loop
    ([startMJPEG]) and the audio pacer ([limitter]).

    Go pointers are indices into an explicit heap, nil-able slices and
    pointers are [option]s, a run-time panic is an outcome of its own, and
    every call that leaves the package is recorded in a trace of events. *)

From Stdlib Require Import ZArith Lia.
From stdpp Require Import base list strings.

(** ** Go values *)

Definition error := string.

(** The result of running a Go function body: a value, a run-time panic,
    or (for the one loop without an exit on success) no result within the
    given number of iterations. *)
Inductive Outcome (A : Type) : Type :=
  | Val (a : A)
  | Panic (msg : string)
  | OutOfFuel.
Arguments Val {A} a.
Arguments Panic {A} msg.
Arguments OutOfFuel {A}.

(** A Go pair [(value, error)]. *)
Inductive Result (A : Type) : Type :=
  | Ok (a : A)
  | Err (e : error).
Arguments Ok {A} a.
Arguments Err {A} e.

Definition index_out_of_range : string := "index out of range".
Definition nil_dereference : string := "nil pointer dereference".

(** Fixed-width integers, with their wrap-around. *)
Definition uint16 (x : Z) : Z := (x mod 2 ^ 16)%Z.
Definition uint32 (x : Z) : Z := (x mod 2 ^ 32)%Z.
Definition int64 (x : Z) : Z := ((x + 2 ^ 63) mod 2 ^ 64 - 2 ^ 63)%Z.
Definition maxInt64 : Z := (2 ^ 63 - 1)%Z.
Definition minInt64 : Z := (- 2 ^ 63)%Z.

(** ** pkg/core, pkg/hap, pkg/hap/camera, pkg/srtp as seen from the client *)

(** Modelled from the spec: the kind tags (video | audio) and the
    still-image codec name are constants of pkg/core, which is not among
    the sources; only their being distinct matters. *)
Definition KindVideo : string := "video".
Definition KindAudio : string := "audio".
Definition CodecJPEG : string := "JPEG".

(** [core.Codec]: [Kind] holds what the method [Codec.Kind()] returns. *)
Record Codec := { Name : string; Kind : string }.

(** [*core.Receiver]: a track supplied from outside; the client only keeps
    the reference [rid] and calls [WriteRTP] on it. *)
Record Receiver := { rid : nat; Codec_ : Codec }.

(** [rtp.Packet], reduced to the two fields the client touches. *)
Record Packet := { Timestamp : Z; Payload : list Byte.byte }.

Definition set_Timestamp (ts : Z) (p : Packet) : Packet :=
  {| Timestamp := ts; Payload := Payload p |}.

(** Codec descriptors of pkg/hap/camera and [core.Media]: declared outside
    the sources, carried around opaquely. *)
Record VideoCodec := { video_descr : list Z }.
Record AudioCodec := { audio_descr : list Z }.
Record SupportedVideoStreamConfig := { VCodecs : list VideoCodec }.
Record SupportedAudioStreamConfig := { ACodecs : list AudioCodec }.
Record Media := { media_kind : string; media_codecs : list Codec }.
Record Stream := { stream_id : nat }.

(** Modelled from the spec: the capability lookup of pkg/hap (not among
    the sources): "given a description and a capability-type identifier,
    returns an opaque characteristic or none". *)
Record Character := { Type_ : string; Value : string }.
Record Accessory := { Characters : list Character }.
Definition TypeSupportedVideoStreamConfiguration : string := "114".
Definition TypeSupportedAudioStreamConfiguration : string := "115".
Definition GetCharacter (acc : Accessory) (t : string) : option Character :=
  find (fun ch => String.eqb (Type_ ch) t) (Characters acc).

(** [srtp.Endpoint]. *)
Record Endpoint := {
  Addr : string;
  Port : Z;
  MasterKey : list Byte.byte;
  MasterSalt : list Byte.byte;
  SSRC : Z
}.

(** A session is referred to by its address in the heap. *)
Definition ptr := nat.

(** The two functions the client installs as [OnReadRTP]:
    [ResetThenWrite t] is the literal
    [func(packet) { deadline.Reset(core.ConnDeadline); t.WriteRTP(packet) }]
    closed over the track variable [t] (which may hold nil), and
    [WriteTo t] is the method value [t.WriteRTP]. *)
Inductive Handler :=
  | ResetThenWrite (track : option Receiver)
  | WriteTo (track : Receiver).

(** [srtp.Session], declared in pkg/srtp; [Recv] counts the bytes
    received and is taken to be a Go [int] of 64 bits. *)
Record Session := {
  Local : Endpoint;
  OnReadRTP : option Handler;
  Recv : Z
}.

Definition set_OnReadRTP (h : Handler) (s : Session) : Session :=
  {| Local := Local s; OnReadRTP := Some h; Recv := Recv s |}.

(** ** The client *)

(** [Medias] and [Receivers] come from the embedded [core.SuperProducer];
    a slice is [None] when nil and [Some l] otherwise, so that [Some []]
    is the empty slice that is not nil. *)
Record Client := {
  Medias : option (list Media);
  Receivers : option (list Receiver);
  videoConfig : SupportedVideoStreamConfig;
  audioConfig : SupportedAudioStreamConfig;
  videoSession : option ptr;
  audioSession : option ptr;
  stream : option Stream
}.

Definition set_Medias (v : option (list Media)) (c : Client) : Client :=
  {| Medias := v; Receivers := Receivers c;
     videoConfig := videoConfig c; audioConfig := audioConfig c;
     videoSession := videoSession c; audioSession := audioSession c;
     stream := stream c |}.
Definition set_videoConfig (v : SupportedVideoStreamConfig) (c : Client) : Client :=
  {| Medias := Medias c; Receivers := Receivers c;
     videoConfig := v; audioConfig := audioConfig c;
     videoSession := videoSession c; audioSession := audioSession c;
     stream := stream c |}.
Definition set_audioConfig (v : SupportedAudioStreamConfig) (c : Client) : Client :=
  {| Medias := Medias c; Receivers := Receivers c;
     videoConfig := videoConfig c; audioConfig := v;
     videoSession := videoSession c; audioSession := audioSession c;
     stream := stream c |}.
Definition set_videoSession (v : option ptr) (c : Client) : Client :=
  {| Medias := Medias c; Receivers := Receivers c;
     videoConfig := videoConfig c; audioConfig := audioConfig c;
     videoSession := v; audioSession := audioSession c;
     stream := stream c |}.
Definition set_audioSession (v : option ptr) (c : Client) : Client :=
  {| Medias := Medias c; Receivers := Receivers c;
     videoConfig := videoConfig c; audioConfig := audioConfig c;
     videoSession := videoSession c; audioSession := v;
     stream := stream c |}.
Definition set_stream (v : option Stream) (c : Client) : Client :=
  {| Medias := Medias c; Receivers := Receivers c;
     videoConfig := videoConfig c; audioConfig := audioConfig c;
     videoSession := videoSession c; audioSession := audioSession c;
     stream := v |}.

(** What [Dial] returns: [&Client{hap: conn, srtp: server}]. *)
Definition dialed : Client :=
  {| Medias := None; Receivers := None;
     videoConfig := {| VCodecs := [] |}; audioConfig := {| ACodecs := [] |};
     videoSession := None; audioSession := None; stream := None |}.

(** ** The world outside the client *)

(** Everything the client shares with its collaborators: the sessions it
    allocated, the sessions the transport registry ([srtp.Server]) knows,
    how much of the random source has been consumed, the deadline timer
    (the instant at which it fires) and the clock. *)
Record World := {
  heap : list Session;
  registry : list ptr;
  rand_pos : nat;
  deadline : Z;
  now : Z
}.

Definition set_heap (h : list Session) (w : World) : World :=
  {| heap := h; registry := registry w; rand_pos := rand_pos w;
     deadline := deadline w; now := now w |}.
Definition set_registry (r : list ptr) (w : World) : World :=
  {| heap := heap w; registry := r; rand_pos := rand_pos w;
     deadline := deadline w; now := now w |}.
Definition set_rand_pos (n : nat) (w : World) : World :=
  {| heap := heap w; registry := registry w; rand_pos := n;
     deadline := deadline w; now := now w |}.
Definition set_deadline (d : Z) (w : World) : World :=
  {| heap := heap w; registry := registry w; rand_pos := rand_pos w;
     deadline := d; now := now w |}.
Definition set_now (t : Z) (w : World) : World :=
  {| heap := heap w; registry := registry w; rand_pos := rand_pos w;
     deadline := deadline w; now := t |}.

(** What a method does that can be seen from outside, in the order it
    happens. *)
Inductive Event :=
  | EvGetFirstAccessory
  | EvGetCharacter (t : string)
  | EvReadTLV8 (t : string)
  | EvNewSession (p : ptr)
  | EvNewStream (video audio : ptr) (r : option error)
  | EvAddSession (p : ptr)
  | EvDelSession (p : option ptr)
  | EvNewTimer (d : Z)
  | EvReset (d : Z)
  | EvGetImage (width height : Z)
  | EvWriteRTP (track : nat) (p : Packet)
  | EvProducerClose
  | EvHapClose.

(** A packet handed by the transport to one of the two sessions. *)
Inductive Role := VideoRole | AudioRole.
Record Delivery := { at_time : Z; to : Role; packet : Packet }.

(** The answers of the collaborators.  [ReadTLV8_video ch old] is
    [char.ReadTLV8(&c.videoConfig)]: it decodes in place, so it gives the
    contents of the destination afterwards (whatever the decoder left
    there when it fails) and the error. *)
Record Env := {
  hap_GetFirstAccessory : Result Accessory;
  ReadTLV8_video :
    Character -> SupportedVideoStreamConfig -> SupportedVideoStreamConfig * option error;
  ReadTLV8_audio :
    Character -> SupportedAudioStreamConfig -> SupportedAudioStreamConfig * option error;
  videoToMedia : list VideoCodec -> Media;
  audioToMedia : list AudioCodec -> Media;
  trackToVideo : option Receiver -> VideoCodec -> Outcome VideoCodec;
  trackToAudio : option Receiver -> AudioCodec -> Outcome AudioCodec;
  hap_LocalIP : string;
  hap_URL : string;
  hap_Close : option error;
  hap_GetImage : nat -> Result (list Byte.byte);
  Now90000 : nat -> Z;
  srtp_Port : Z;
  random : nat -> Byte.byte;
  rand_Uint32 : nat -> Z;
  camera_NewStream : VideoCodec -> AudioCodec -> Endpoint -> Endpoint -> Result Stream;
  ConnDeadline : Z;
  deliveries : list Delivery
}.

(** ** A state, error and trace monad for method bodies *)

Definition State : Type := Client * World.
Definition M (A : Type) : Type := State -> Outcome A * State * list Event.

Definition ret {A} (a : A) : M A := fun s => (Val a, s, []).

Definition bind {A B} (m : M A) (k : A -> M B) : M B := fun s =>
  match m s with
  | (Val a, s1, t1) =>
      match k a s1 with
      | (r, s2, t2) => (r, s2, t1 ++ t2)
      end
  | (Panic msg, s1, t1) => (Panic msg, s1, t1)
  | (OutOfFuel, s1, t1) => (OutOfFuel, s1, t1)
  end.

Notation "'let*' x ':=' m 'in' k" := (bind m (fun x => k))
  (at level 10, x name, m at level 100, k at level 200).
Notation "'run' m1 'then' m2" := (bind m1 (fun _ => m2))
  (at level 10, m1 at level 100, m2 at level 200).

Definition panic {A} (msg : string) : M A := fun s => (Panic msg, s, []).
Definition out_of_fuel {A} : M A := fun s => (OutOfFuel, s, []).
Definition emit (e : Event) : M unit := fun s => (Val tt, s, [e]).
Definition getClient : M Client := fun s => (Val (fst s), s, []).
Definition getWorld : M World := fun s => (Val (snd s), s, []).
Definition modClient (f : Client -> Client) : M unit :=
  fun s => (Val tt, (f (fst s), snd s), []).
Definition modWorld (f : World -> World) : M unit :=
  fun s => (Val tt, (fst s, f (snd s)), []).
Definition liftOutcome {A} (o : Outcome A) : M A := fun s => (o, s, []).

Definition result_of {A} (r : Outcome A * State * list Event) : Outcome A := fst (fst r).
Definition client_of {A} (r : Outcome A * State * list Event) : Client := fst (snd (fst r)).
Definition world_of {A} (r : Outcome A * State * list Event) : World := snd (snd (fst r)).
Definition state_of {A} (r : Outcome A * State * list Event) : State := snd (fst r).
Definition trace_of {A} (r : Outcome A * State * list Event) : list Event := snd r.

(** ** GetMedias *)

Module Negotiator.

(** [c.hap.GetFirstAccessory()] *)
Definition GetFirstAccessory (env : Env) : M (Result Accessory) :=
  run emit EvGetFirstAccessory then ret (hap_GetFirstAccessory env).

(** [acc.GetCharacter(t)] *)
Definition lookup (acc : Accessory) (t : string) : M (option Character) :=
  run emit (EvGetCharacter t) then ret (GetCharacter acc t).

(** [char.ReadTLV8(&c.videoConfig)] *)
Definition readVideoConfig (env : Env) (ch : Character) : M (option error) :=
  let* c := getClient in
  run emit (EvReadTLV8 TypeSupportedVideoStreamConfiguration) then
  run modClient (set_videoConfig (fst (ReadTLV8_video env ch (videoConfig c)))) then
  ret (snd (ReadTLV8_video env ch (videoConfig c))).

(** [char.ReadTLV8(&c.audioConfig)] *)
Definition readAudioConfig (env : Env) (ch : Character) : M (option error) :=
  let* c := getClient in
  run emit (EvReadTLV8 TypeSupportedAudioStreamConfiguration) then
  run modClient (set_audioConfig (fst (ReadTLV8_audio env ch (audioConfig c)))) then
  ret (snd (ReadTLV8_audio env ch (audioConfig c))).

Definition GetMedias (env : Env) : M (option (list Media)) :=
  let* c := getClient in
  match Medias c with
  | Some ms => ret (Some ms)
  | None =>
    let* r := GetFirstAccessory env in
    match r with
    | Err _ => ret None
    | Ok acc =>
      let* char := lookup acc TypeSupportedVideoStreamConfiguration in
      match char with
      | None => ret None
      | Some ch =>
        let* err := readVideoConfig env ch in
        match err with
        | Some _ => ret None
        | None =>
          let* char := lookup acc TypeSupportedAudioStreamConfiguration in
          match char with
          | None => ret None
          | Some ch =>
            let* err := readAudioConfig env ch in
            match err with
            | Some _ => ret None
            | None =>
              let* c := getClient in
              let ms := [videoToMedia env (VCodecs (videoConfig c));
                         audioToMedia env (ACodecs (audioConfig c))] in
              run modClient (set_Medias (Some ms)) then
              ret (Some ms)
            end
          end
        end
      end
    end
  end.

End Negotiator.

(** ** Sessions, the transport registry and the random source *)

Module Sessions.

(** [s[0]] of a slice. *)
Definition index0 {A} (l : list A) : M A :=
  match l with
  | x :: _ => ret x
  | [] => panic index_out_of_range
  end.

(** Ranging over a nil slice visits nothing. *)
Definition elems {A} (s : option (list A)) : list A := default [] s.

Definition trackByKind (c : Client) (kind : string) : option Receiver :=
  find (fun receiver => String.eqb (Kind (Codec_ receiver)) kind) (elems (Receivers c)).

(** Modelled from the spec: [core.RandString(size, 0)] is not among the
    sources; it yields "freshly generated random" bytes, [size] of them,
    here the next [size] bytes of the random source. *)
Definition RandString (env : Env) (size : nat) : M (list Byte.byte) :=
  let* w := getWorld in
  run modWorld (set_rand_pos (rand_pos w + size)) then
  ret (map (random env) (seq (rand_pos w) size)).

(** [rand.Uint32()] *)
Definition Uint32 (env : Env) : M Z :=
  let* w := getWorld in
  run modWorld (set_rand_pos (S (rand_pos w))) then
  ret (uint32 (rand_Uint32 env (rand_pos w))).

Definition srtpEndpoint (env : Env) : M Endpoint :=
  let* key := RandString env 16 in
  let* salt := RandString env 14 in
  let* ssrc := Uint32 env in
  ret {| Addr := hap_LocalIP env;
         Port := uint16 (srtp_Port env);
         MasterKey := key;
         MasterSalt := salt;
         SSRC := ssrc |}.

(** [&srtp.Session{Local: ep}]: a new object, at the next free address. *)
Definition newSession (ep : Endpoint) : M ptr :=
  let* w := getWorld in
  let p := length (heap w) in
  run modWorld (set_heap (heap w ++ [{| Local := ep; OnReadRTP := None; Recv := 0 |}])) then
  run emit (EvNewSession p) then
  ret p.

(** Modelled from the spec: the registry of pkg/srtp (not among the
    sources) offers "addSession(session), removeSession(session)", and
    "removal of a non-existent session must be a no-op, not an error",
    also for a nil session. *)
Definition AddSession (p : ptr) : M unit :=
  run emit (EvAddSession p) then
  modWorld (fun w => set_registry (registry w ++ [p]) w).

Definition DelSession (p : option ptr) : M unit :=
  run emit (EvDelSession p) then
  match p with
  | None => ret tt
  | Some q => modWorld (fun w => set_registry (filter (fun x => x <> q) (registry w)) w)
  end.

(** [camera.NewStream(c.hap, videoCodec, audioCodec, c.videoSession, c.audioSession)] *)
Definition NewStream (env : Env) (videoCodec : VideoCodec) (audioCodec : AudioCodec)
    (video audio : ptr) : M (Result Stream) :=
  let* w := getWorld in
  match heap w !! video, heap w !! audio with
  | Some vs, Some as_ =>
      let r := camera_NewStream env videoCodec audioCodec (Local vs) (Local as_) in
      run emit (EvNewStream video audio
                  (match r with Ok _ => None | Err e => Some e end)) then
      ret r
  | _, _ => panic nil_dereference
  end.

(** [session.OnReadRTP = h], through the pointer. *)
Definition setOnReadRTP (p : ptr) (h : Handler) : M unit :=
  modWorld (fun w => set_heap (alter (set_OnReadRTP h) p (heap w)) w).

End Sessions.

(** ** The RTP bridge and the deadline timer *)

Module Bridge.

(** [time.NewTimer(core.ConnDeadline)] and [deadline.Reset(core.ConnDeadline)]. *)
Definition NewTimer (env : Env) : M unit :=
  let* w := getWorld in
  run emit (EvNewTimer (now w + ConnDeadline env)) then
  modWorld (set_deadline (now w + ConnDeadline env)).

Definition Reset (env : Env) : M unit :=
  let* w := getWorld in
  run emit (EvReset (now w + ConnDeadline env)) then
  modWorld (set_deadline (now w + ConnDeadline env)).

(** [track.WriteRTP(packet)] *)
Definition WriteRTP (track : Receiver) (p : Packet) : M unit :=
  emit (EvWriteRTP (rid track) p).

(** Calling an installed handler. *)
Definition call (env : Env) (h : Handler) (p : Packet) : M unit :=
  match h with
  | ResetThenWrite track =>
      run Reset env then
      match track with
      | Some t => WriteRTP t p
      | None => panic nil_dereference
      end
  | WriteTo t => WriteRTP t p
  end.

Definition session_of (c : Client) (r : Role) : option ptr :=
  match r with
  | VideoRole => videoSession c
  | AudioRole => audioSession c
  end.

(** Modelled from the spec: the packet pump of pkg/srtp is not among the
    sources; it is "a session abstraction with an inbound-packet callback
    and an add/remove session registry".  The transport hands a packet to
    a registered session's handler; a packet for a session that is not
    registered, or has no handler, is left where it is. *)
Definition deliver (env : Env) (d : Delivery) : M unit :=
  run modWorld (set_now (at_time d)) then
  let* c := getClient in
  let* w := getWorld in
  match session_of c (to d) with
  | None => ret tt
  | Some p =>
      if bool_decide (p ∈ registry w) then
        match heap w !! p with
        | Some s =>
            match OnReadRTP s with
            | Some h => call env h (packet d)
            | None => ret tt
            end
        | None => ret tt
        end
      else ret tt
  end.

(** [<-deadline.C]: packets keep arriving until the timer fires; the
    receive returns at the instant the timer was last set to. *)
Fixpoint await (env : Env) (ds : list Delivery) : M unit :=
  match ds with
  | [] =>
      let* w := getWorld in
      modWorld (set_now (deadline w))
  | d :: ds' =>
      let* w := getWorld in
      if (deadline w <=? at_time d)%Z then modWorld (set_now (deadline w))
      else run deliver env d then await env ds'
  end.

End Bridge.

(** ** The client's methods *)

Module Homekit.
Import Sessions Bridge.

Definition producer_without_tracks : error := "producer without tracks".

(** The loop of [startMJPEG]; [i] counts the image requests made so far. *)
Fixpoint mjpegLoop (env : Env) (receiver : Receiver) (i fuel : nat) : M (option error) :=
  match fuel with
  | O => out_of_fuel
  | S fuel' =>
      run emit (EvGetImage 1920 1080) then
      match hap_GetImage env i with
      | Err err => ret (Some err)
      | Ok b =>
          let packet := {| Timestamp := uint32 (Now90000 env i); Payload := b |} in
          run WriteRTP receiver packet then
          mjpegLoop env receiver (S i) fuel'
      end
  end.

Definition startMJPEG (env : Env) (fuel : nat) : M (option error) :=
  let* c := getClient in
  let* receiver := index0 (elems (Receivers c)) in
  mjpegLoop env receiver 0 fuel.

Definition Start (env : Env) (fuel : nat) : M (option error) :=
  let* c := getClient in
  match Receivers c with
  | None => ret (Some producer_without_tracks)
  | Some receivers =>
    let* r0 := index0 receivers in
    if String.eqb (Name (Codec_ r0)) CodecJPEG then startMJPEG env fuel
    else
      let videoTrack := trackByKind c KindVideo in
      let* video0 := index0 (VCodecs (videoConfig c)) in
      let* videoCodec := liftOutcome (trackToVideo env videoTrack video0) in
      let audioTrack := trackByKind c KindAudio in
      let* audio0 := index0 (ACodecs (audioConfig c)) in
      let* audioCodec := liftOutcome (trackToAudio env audioTrack audio0) in
      let* vep := srtpEndpoint env in
      let* vs := newSession vep in
      run modClient (set_videoSession (Some vs)) then
      let* aep := srtpEndpoint env in
      let* as_ := newSession aep in
      run modClient (set_audioSession (Some as_)) then
      let* r := NewStream env videoCodec audioCodec vs as_ in
      match r with
      | Err err =>
          (* [c.stream] receives the nil handle that comes with the error *)
          run modClient (set_stream None) then
          ret (Some err)
      | Ok st =>
          run modClient (set_stream (Some st)) then
          run AddSession vs then
          run AddSession as_ then
          run NewTimer env then
          run match videoTrack with
              | Some vt =>
                  run setOnReadRTP vs (ResetThenWrite (Some vt)) then
                  match audioTrack with
                  | Some at_ => setOnReadRTP as_ (WriteTo at_)
                  | None => ret tt
                  end
              | None => setOnReadRTP as_ (ResetThenWrite audioTrack)
              end then
          run await env (deliveries env) then
          ret None
      end
  end.

Definition Stop (env : Env) : M (option error) :=
  run emit EvProducerClose then
  let* c := getClient in
  run DelSession (videoSession c) then
  let* c := getClient in
  run DelSession (audioSession c) then
  run emit EvHapClose then
  ret (hap_Close env).

(** [core.Info], the value handed to [json.Marshal]. *)
Record Info := {
  InfoType : string;
  InfoURL : string;
  InfoMedias : option (list Media);
  InfoReceivers : option (list Receiver);
  InfoRecv : Z
}.

(** [p.Recv] for a session pointer [p]. *)
Definition readRecv (p : option ptr) : M Z :=
  match p with
  | None => panic nil_dereference
  | Some q =>
      let* w := getWorld in
      match heap w !! q with
      | Some s => ret (Recv s)
      | None => panic nil_dereference
      end
  end.

Definition MarshalJSON (env : Env) : M Info :=
  let* c := getClient in
  let* v := readRecv (videoSession c) in
  let* a := readRecv (audioSession c) in
  ret {| InfoType := "HomeKit active producer";
         InfoURL := hap_URL env;
         InfoMedias := Medias c;
         InfoReceivers := Receivers c;
         InfoRecv := int64 (v + a) |}.

End Homekit.

(** ** The audio pacer *)

Module Pacer.
Local Open Scope Z_scope.

Definition sampleRate : Z := 16000.
Definition sampleSize : Z := 480.
Definition Second : Z := 1000000000.

(** The two variables the returned closure captures: [send], a
    [time.Duration] (an int64), and [firstTime], an instant of the
    monotonic clock in nanoseconds. *)
Record vars := { send : Z; firstTime : Z }.

Definition init : vars := {| send := 0; firstTime := 0 |}.

(** [t.Sub(u)]: the difference as a [Duration], clamped to its range. *)
Definition Sub (t u : Z) : Z := Z.max minInt64 (Z.min maxInt64 (t - u)).

(** [now.Sub(firstTime) * sampleRate / time.Second] *)
Definition elapsed (now_ first : Z) : Z :=
  Z.quot (int64 (Sub now_ first * sampleRate)) Second.

(** One call of the closure at instant [now_]: the variables afterwards,
    and the packet passed on to [handler], if any. *)
Definition limitter (st : vars) (now_ : Z) (packet : Packet) : vars * option Packet :=
  let forward (first : Z) :=
    let send' := int64 (send st + sampleSize) in
    ({| send := send'; firstTime := first |},
     Some (set_Timestamp (uint32 send') packet)) in
  if negb (send st =? 0) then
    if int64 (send st + sampleSize) >? elapsed now_ (firstTime st)
    then (st, None)
    else forward (firstTime st)
  else forward now_.

(** The closure fed a stream of packets with their arrival instants:
    what reaches [handler], in order, and the variables at the end. *)
Fixpoint feed (st : vars) (input : list (Z * Packet)) : list Packet * vars :=
  match input with
  | [] => ([], st)
  | (now_, packet) :: rest =>
      match limitter st now_ packet with
      | (st', Some out) =>
          let r := feed st' rest in (out :: fst r, snd r)
      | (st', None) => feed st' rest
      end
  end.

Definition forwarded (input : list (Z * Packet)) : list Packet :=
  fst (feed init input).

(** The timestamps [handler] sees. *)
Definition stamps (input : list (Z * Packet)) : list Z :=
  map Timestamp (forwarded input).

(** Each timestamp is the one before plus 480. *)
Definition steps_of_480 (l : list Z) : Prop :=
  forall i a b, l !! i = Some a -> l !! S i = Some b -> b = a + sampleSize.

(** [n] packets, one every 60 ms. *)
Definition silence : Packet := {| Timestamp := 0; Payload := [] |}.
Definition steady_from (k n : nat) : list (Z * Packet) :=
  map (fun i => (Z.of_nat i * 60000000, silence)) (seq k n).
Definition steady (n : nat) : list (Z * Packet) := steady_from 0 n.

End Pacer.

(** ** Points of an execution of [Start] *)

Module Run.
Import Sessions Bridge Homekit.

(** The endpoint [srtpEndpoint] builds when the random source stands at
    [pos]: sixteen bytes of key, fourteen of salt, then the SSRC. *)
Definition endpoint_at (env : Env) (pos : nat) : Endpoint :=
  {| Addr := hap_LocalIP env;
     Port := uint16 (srtp_Port env);
     MasterKey := map (random env) (seq pos 16);
     MasterSalt := map (random env) (seq (pos + 16) 14);
     SSRC := uint32 (rand_Uint32 env (pos + 16 + 14)) |}.

Definition fresh_session (ep : Endpoint) : Session :=
  {| Local := ep; OnReadRTP := None; Recv := 0 |}.

(** [Start] gets as far as creating the sessions (line 108): there is a
    first receiver, it is not a still-image one, both descriptors list a
    codec, and both track conversions return.  The value is the pair of
    narrowed codecs. *)
Definition reaches_setup (env : Env) (c : Client) : option (VideoCodec * AudioCodec) :=
  match Receivers c with
  | Some (r0 :: _) =>
      if String.eqb (Name (Codec_ r0)) CodecJPEG then None
      else
        match VCodecs (videoConfig c) with
        | video0 :: _ =>
            match trackToVideo env (trackByKind c KindVideo) video0 with
            | Val videoCodec =>
                match ACodecs (audioConfig c) with
                | audio0 :: _ =>
                    match trackToAudio env (trackByKind c KindAudio) audio0 with
                    | Val audioCodec => Some (videoCodec, audioCodec)
                    | _ => None
                    end
                | [] => None
                end
            | _ => None
            end
        | [] => None
        end
  | _ => None
  end.

(** The two sessions [Start] allocates in world [w], and their addresses. *)
Definition video_fresh (env : Env) (w : World) : Session :=
  fresh_session (endpoint_at env (rand_pos w)).
Definition audio_fresh (env : Env) (w : World) : Session :=
  fresh_session (endpoint_at env (S (rand_pos w + 16 + 14))).
Definition video_ptr (w : World) : ptr := length (heap w).
Definition audio_ptr (env : Env) (w : World) : ptr :=
  length (heap w ++ [video_fresh env w]).

(** Client and world when [camera.NewStream] is called (line 112). *)
Definition setup_client (env : Env) (c : Client) (w : World) : Client :=
  set_audioSession (Some (audio_ptr env w)) (set_videoSession (Some (video_ptr w)) c).
Definition setup_world (env : Env) (w : World) : World :=
  {| heap := (heap w ++ [video_fresh env w]) ++ [audio_fresh env w];
     registry := registry w;
     rand_pos := S (S (rand_pos w + 16 + 14 + 16 + 14));
     deadline := deadline w;
     now := now w |}.

(** The sessions once the handlers are installed (lines 122 to 136). *)
Definition wired_heap (env : Env) (c : Client) (w : World) : list Session :=
  match trackByKind c KindVideo with
  | Some vt =>
      (heap w ++ [set_OnReadRTP (ResetThenWrite (Some vt)) (video_fresh env w)]) ++
      [match trackByKind c KindAudio with
       | Some at_ => set_OnReadRTP (WriteTo at_) (audio_fresh env w)
       | None => audio_fresh env w
       end]
  | None =>
      (heap w ++ [video_fresh env w]) ++
      [set_OnReadRTP (ResetThenWrite (trackByKind c KindAudio)) (audio_fresh env w)]
  end.

(** Client and world while [Start] waits on the timer (line 138), the
    timer standing at [dl] and the clock at [t]. *)
Definition waiting (env : Env) (c : Client) (w : World) (st : Stream) (dl t : Z) : State :=
  (set_stream (Some st) (setup_client env c w),
   {| heap := wired_heap env c w;
      registry := (registry w ++ [video_ptr w]) ++ [audio_ptr env w];
      rand_pos := S (S (rand_pos w + 16 + 14 + 16 + 14));
      deadline := dl;
      now := t |}).

(** Client and world when [Start] begins to wait. *)
Definition wired_state (env : Env) (c : Client) (w : World) (st : Stream) : State :=
  waiting env c w st (now w + ConnDeadline env)%Z (now w).

(** The handler [Start] leaves on the session of each role. *)
Definition installed (c : Client) (r : Role) : option Handler :=
  match r, trackByKind c KindVideo with
  | VideoRole, Some vt => Some (ResetThenWrite (Some vt))
  | VideoRole, None => None
  | AudioRole, Some _ =>
      match trackByKind c KindAudio with
      | Some at_ => Some (WriteTo at_)
      | None => None
      end
  | AudioRole, None => Some (ResetThenWrite (trackByKind c KindAudio))
  end.

(** What [Start] has done before it waits. *)
Definition setup_trace (env : Env) (w : World) (r : option error) : list Event :=
  [EvNewSession (video_ptr w); EvNewSession (audio_ptr env w);
   EvNewStream (video_ptr w) (audio_ptr env w) r].
Definition streaming_trace (env : Env) (w : World) : list Event :=
  setup_trace env w None ++
  [EvAddSession (video_ptr w); EvAddSession (audio_ptr env w);
   EvNewTimer (now w + ConnDeadline env)%Z].

(** [return nil] after the wait. *)
Definition after_await (pre : list Event) (r : Outcome unit * State * list Event)
    : Outcome (option error) * State * list Event :=
  match r with
  | (Val _, s, t) => (Val None, s, pre ++ t)
  | (Panic msg, s, t) => (Panic msg, s, pre ++ t)
  | (OutOfFuel, s, t) => (OutOfFuel, s, pre ++ t)
  end.

(** A monitor for "no session is registered before the remote stream
    open has succeeded": [opened] tells whether a successful open has
    been seen. *)
Fixpoint registered_after_open (opened : bool) (tr : list Event) : bool :=
  match tr with
  | [] => true
  | EvNewStream _ _ None :: rest => registered_after_open true rest
  | EvAddSession _ :: rest => opened && registered_after_open opened rest
  | _ :: rest => registered_after_open opened rest
  end.

Definition is_AddSession (e : Event) : bool :=
  match e with EvAddSession _ => true | _ => false end.

(** The instant at which a timer standing at [dl] fires when, of the
    packets [ds], those for the video session set it to their arrival
    time plus [D] and those for the audio session leave it alone. *)
Fixpoint fire_time (D dl : Z) (ds : list Delivery) : Z :=
  match ds with
  | [] => dl
  | d :: ds' =>
      if (dl <=? at_time d)%Z then dl
      else fire_time D (match to d with
                        | VideoRole => (at_time d + D)%Z
                        | AudioRole => dl
                        end) ds'
  end.

(** The packets [ds] arrive one after the other, none before [from]. *)
Fixpoint in_order (from : Z) (ds : list Delivery) : Prop :=
  match ds with
  | [] => True
  | d :: ds' => (from <= at_time d)%Z /\ in_order (at_time d) ds'
  end.

(** The image the accessory returns to request [i] (none when it fails). *)
Definition image (env : Env) (i : nat) : list Byte.byte :=
  match hap_GetImage env i with
  | Ok b => b
  | Err _ => []
  end.

(** [n] successful rounds of the polling loop, from request [i] on. *)
Definition mjpeg_rounds (env : Env) (receiver : Receiver) (i n : nat) : list Event :=
  flat_map (fun j =>
      [EvGetImage 1920 1080;
       EvWriteRTP (rid receiver)
         {| Timestamp := uint32 (Now90000 env j); Payload := image env j |}])
    (seq i n).

End Run.

(** ** Repeated calls and concrete scenarios *)

Module Scenario.
Import Negotiator.

(** Calling [GetMedias] once per environment of [envs], one after the
    other on the same client: what each call returned and did. *)
Fixpoint GetMedias_calls (envs : list Env) (s : State)
    : list (Outcome (option (list Media)) * list Event) * State :=
  match envs with
  | [] => ([], s)
  | env :: rest =>
      let r := GetMedias env s in
      let rs := GetMedias_calls rest (state_of r) in
      ((result_of r, trace_of r) :: fst rs, snd rs)
  end.

(** Some step of [GetMedias] fails: the accessory description cannot be
    read, a capability characteristic is absent, or a decode fails. *)
Definition some_step_fails (env : Env) (c : Client) : bool :=
  match Medias c with
  | Some _ => false
  | None =>
  match hap_GetFirstAccessory env with
  | Err _ => true
  | Ok acc =>
      match GetCharacter acc TypeSupportedVideoStreamConfiguration with
      | None => true
      | Some vch =>
          match ReadTLV8_video env vch (videoConfig c) with
          | (_, Some _) => true
          | (_, None) =>
              match GetCharacter acc TypeSupportedAudioStreamConfiguration with
              | None => true
              | Some ach =>
                  match ReadTLV8_audio env ach (audioConfig c) with
                  | (_, Some _) => true
                  | (_, None) => false
                  end
              end
          end
      end
  end
  end.

(** The failure happens before anything is decoded. *)
Definition fails_before_decoding (env : Env) : bool :=
  match hap_GetFirstAccessory env with
  | Err _ => true
  | Ok acc =>
      match GetCharacter acc TypeSupportedVideoStreamConfiguration with
      | None => true
      | Some _ => false
      end
  end.

Definition world0 : World :=
  {| heap := []; registry := []; rand_pos := 0; deadline := 0%Z; now := 0%Z |}.

Definition h264 : VideoCodec := {| video_descr := [0; 1280; 720; 30]%Z |}.
Definition opus : AudioCodec := {| audio_descr := [3; 1; 16]%Z |}.
Definition videoChar : Character :=
  {| Type_ := TypeSupportedVideoStreamConfiguration; Value := "AQ==" |}.
Definition audioChar : Character :=
  {| Type_ := TypeSupportedAudioStreamConfiguration; Value := "Ag==" |}.

Definition videoReceiver : Receiver :=
  {| rid := 1; Codec_ := {| Name := "H264"; Kind := KindVideo |} |}.
Definition audioReceiver : Receiver :=
  {| rid := 2; Codec_ := {| Name := "OPUS"; Kind := KindAudio |} |}.
Definition jpegReceiver : Receiver :=
  {| rid := 3; Codec_ := {| Name := CodecJPEG; Kind := KindVideo |} |}.

(** A camera that answers everything: both capability characteristics
    decode, the stream opens, the third image request fails, and packets
    arrive one, two and three seconds after the timer was started. *)
Definition camera : Env :=
  {| hap_GetFirstAccessory := Ok {| Characters := [videoChar; audioChar] |};
     ReadTLV8_video := fun _ _ => ({| VCodecs := [h264] |}, None);
     ReadTLV8_audio := fun _ _ => ({| ACodecs := [opus] |}, None);
     videoToMedia := fun _ =>
       {| media_kind := KindVideo; media_codecs := [Codec_ videoReceiver] |};
     audioToMedia := fun _ =>
       {| media_kind := KindAudio; media_codecs := [Codec_ audioReceiver] |};
     trackToVideo := fun _ v => Val v;
     trackToAudio := fun _ a => Val a;
     hap_LocalIP := "192.168.1.2";
     hap_URL := "homekit://192.168.1.9:5001";
     hap_Close := None;
     hap_GetImage := fun i =>
       if (i <? 2)%nat then Ok [Byte.xff; Byte.xd8] else Err "EOF";
     Now90000 := fun i => (Z.of_nat i * 3000)%Z;
     srtp_Port := 8443%Z;
     random := fun _ => Byte.x2a;
     rand_Uint32 := fun n => (Z.of_nat n + 7)%Z;
     camera_NewStream := fun _ _ _ _ => Ok {| stream_id := 1 |};
     ConnDeadline := 5000000000%Z;
     deliveries :=
       [ {| at_time := 1000000000%Z; to := VideoRole;
            packet := {| Timestamp := 0%Z; Payload := [] |} |};
         {| at_time := 2000000000%Z; to := AudioRole;
            packet := {| Timestamp := 0%Z; Payload := [] |} |};
         {| at_time := 3000000000%Z; to := AudioRole;
            packet := {| Timestamp := 0%Z; Payload := [] |} |} ] |}.

Definition with_accessory (r : Result Accessory) (env : Env) : Env :=
  {| hap_GetFirstAccessory := r;
     ReadTLV8_video := ReadTLV8_video env; ReadTLV8_audio := ReadTLV8_audio env;
     videoToMedia := videoToMedia env; audioToMedia := audioToMedia env;
     trackToVideo := trackToVideo env; trackToAudio := trackToAudio env;
     hap_LocalIP := hap_LocalIP env; hap_URL := hap_URL env;
     hap_Close := hap_Close env; hap_GetImage := hap_GetImage env;
     Now90000 := Now90000 env; srtp_Port := srtp_Port env;
     random := random env; rand_Uint32 := rand_Uint32 env;
     camera_NewStream := camera_NewStream env;
     ConnDeadline := ConnDeadline env; deliveries := deliveries env |}.

Definition with_NewStream
    (f : VideoCodec -> AudioCodec -> Endpoint -> Endpoint -> Result Stream)
    (env : Env) : Env :=
  {| hap_GetFirstAccessory := hap_GetFirstAccessory env;
     ReadTLV8_video := ReadTLV8_video env; ReadTLV8_audio := ReadTLV8_audio env;
     videoToMedia := videoToMedia env; audioToMedia := audioToMedia env;
     trackToVideo := trackToVideo env; trackToAudio := trackToAudio env;
     hap_LocalIP := hap_LocalIP env; hap_URL := hap_URL env;
     hap_Close := hap_Close env; hap_GetImage := hap_GetImage env;
     Now90000 := Now90000 env; srtp_Port := srtp_Port env;
     random := random env; rand_Uint32 := rand_Uint32 env;
     camera_NewStream := f;
     ConnDeadline := ConnDeadline env; deliveries := deliveries env |}.

(** The same camera without the audio capability characteristic. *)
Definition camera_without_audio : Env :=
  with_accessory (Ok {| Characters := [videoChar] |}) camera.

(** The same camera when it cannot be reached. *)
Definition camera_unreachable : Env :=
  with_accessory (Err "i/o timeout") camera.

(** The same camera declining to open the stream. *)
Definition camera_declining : Env :=
  with_NewStream (fun _ _ _ _ => Err "hap: wrong response status") camera.

(** Two seconds after the timer was started, a packet for the audio
    session. *)
Definition audio_packet_at_2s : Delivery :=
  {| at_time := 2000000000%Z; to := AudioRole;
     packet := {| Timestamp := 0%Z; Payload := [] |} |}.

Definition with_Receivers (rs : option (list Receiver)) (c : Client) : Client :=
  {| Medias := Medias c; Receivers := rs;
     videoConfig := videoConfig c; audioConfig := audioConfig c;
     videoSession := videoSession c; audioSession := audioSession c;
     stream := stream c |}.

(** The client after a successful negotiation. *)
Definition negotiated : Client :=
  client_of (GetMedias camera (dialed, world0)).

(** The negotiated client with a video and an audio track, with an audio
    track only, and with a still-image track. *)
Definition both_tracks : Client :=
  with_Receivers (Some [videoReceiver; audioReceiver]) negotiated.
Definition audio_only : Client :=
  with_Receivers (Some [audioReceiver]) negotiated.
Definition still_image : Client :=
  with_Receivers (Some [jpegReceiver]) negotiated.

End Scenario.

(** ** The bridge for any set of tracks *)

Module Liveness.
Import Sessions Bridge Homekit Run.

(** The kind of track a session feeds. *)
Definition kind_of (r : Role) : string :=
  match r with
  | VideoRole => KindVideo
  | AudioRole => KindAudio
  end.

(** The track the packets of a session are for: the first receiver of the
    session's kind, if any. *)
Definition track_for (c : Client) (r : Role) : option Receiver :=
  trackByKind c (kind_of r).

(** The sessions whose handler resets the timer (lines 122 to 136): the
    video session when there is a video track, the audio session when
    there is none. *)
Definition carries_liveness (c : Client) (r : Role) : bool :=
  match r, trackByKind c KindVideo with
  | VideoRole, Some _ => true
  | VideoRole, None => false
  | AudioRole, Some _ => false
  | AudioRole, None => true
  end.

(** The instant at which a timer standing at [dl] fires when the packets
    of the roles picked by [reset] set it to their arrival time plus [D]. *)
Fixpoint fire_time_by (reset : Role -> bool) (D dl : Z) (ds : list Delivery) : Z :=
  match ds with
  | [] => dl
  | d :: ds' =>
      if (dl <=? at_time d)%Z then dl
      else fire_time_by reset D (if reset (to d) then (at_time d + D)%Z else dl) ds'
  end.

(** The packets that arrive before that. *)
Fixpoint handled (reset : Role -> bool) (D dl : Z) (ds : list Delivery) : list Delivery :=
  match ds with
  | [] => []
  | d :: ds' =>
      if (dl <=? at_time d)%Z then []
      else d :: handled reset D (if reset (to d) then (at_time d + D)%Z else dl) ds'
  end.

(** The packets written to tracks, in order, with the track they went to. *)
Definition written (tr : list Event) : list (nat * Packet) :=
  flat_map (fun e => match e with
                     | EvWriteRTP track p => [(track, p)]
                     | _ => []
                     end) tr.

(** A packet, with the track of its session's kind. *)
Definition bridged (c : Client) (d : Delivery) : list (nat * Packet) :=
  match track_for c (to d) with
  | Some track => [(rid track, packet d)]
  | None => []
  end.

Definition is_bridge_event (e : Event) : bool :=
  match e with
  | EvReset _ | EvWriteRTP _ _ => true
  | _ => false
  end.

Definition is_mjpeg_event (receiver : Receiver) (e : Event) : bool :=
  match e with
  | EvGetImage 1920 1080 => true
  | EvWriteRTP track _ => Nat.eqb track (rid receiver)
  | _ => false
  end.

Definition is_GetImage (e : Event) : bool :=
  match e with EvGetImage _ _ => true | _ => false end.

(** The five steps of a negotiation, in the order of the source. *)
Definition negotiation_steps : list Event :=
  [EvGetFirstAccessory;
   EvGetCharacter TypeSupportedVideoStreamConfiguration;
   EvReadTLV8 TypeSupportedVideoStreamConfiguration;
   EvGetCharacter TypeSupportedAudioStreamConfiguration;
   EvReadTLV8 TypeSupportedAudioStreamConfiguration].

End Liveness.

(** ** Dial and its caller *)

Module Dialer.

(** What [url.Parse] and [u.Query()] give: the host and the query
    parameters in the order they appear.  [Get] is [url.Values.Get]: the
    first value of the key, the empty string when the key is absent. *)
Record URL := { Host : string; Query : list (string * string) }.

Definition Get (query : list (string * string)) (key : string) : string :=
  match find (fun kv => String.eqb (fst kv) key) query with
  | Some kv => snd kv
  | None => ""
  end.

(** [hap.Client], the fields [Dial] fills. *)
Record HapClient := {
  DeviceAddress : string;
  DeviceID : string;
  DevicePublic : list Byte.byte;
  ClientID : string;
  ClientPrivate : list Byte.byte
}.

(** The collaborators of [Dial]: the URL parser, the key decoder of
    pkg/hap and the accessory answering the protocol dial. *)
Record Net := {
  url_Parse : string -> Result URL;
  hap_DecodeKey : string -> list Byte.byte;
  hap_Dial : HapClient -> option error
}.

(** The connection [Dial] builds from a parsed URL. *)
Definition connection (net : Net) (u : URL) : HapClient :=
  {| DeviceAddress := Host u;
     DeviceID := Get (Query u) "device_id";
     DevicePublic := hap_DecodeKey net (Get (Query u) "device_public");
     ClientID := Get (Query u) "client_id";
     ClientPrivate := hap_DecodeKey net (Get (Query u) "client_private") |}.

(** [Dial(rawURL, server)]: the connection and the client
    [&Client{hap: conn, srtp: server}], or the error. *)
Definition Dial (net : Net) (rawURL : string) : Result (HapClient * Client) :=
  match url_Parse net rawURL with
  | Err err => Err err
  | Ok u =>
      let conn := connection net u in
      match hap_Dial net conn with
      | Some err => Err err
      | None => Ok (conn, dialed)
      end
  end.

(** [streamHandler(url)] of the homekit module: [homekit.Dial(url, srtp.Server)]. *)
Definition streamHandler (net : Net) (url : string) : Result (HapClient * Client) :=
  Dial net url.

End Dialer.

(** ** The xterm colour tables of the ascii writer *)

Module AsciiWriter.
Local Open Scope Z_scope.

Definition uint8 (x : Z) : Z := x mod 2 ^ 8.

Definition x256r : list Z := [
   0; 128; 0; 128; 0; 128; 0; 192; 128; 255; 0; 255; 0; 255; 0; 255;
   0; 0; 0; 0; 0; 0; 0; 0; 0; 0; 0; 0; 0; 0; 0; 0;
   0; 0; 0; 0; 0; 0; 0; 0; 0; 0; 0; 0; 0; 0; 0; 0;
   0; 0; 0; 0; 95; 95; 95; 95; 95; 95; 95; 95; 95; 95; 95; 95;
   95; 95; 95; 95; 95; 95; 95; 95; 95; 95; 95; 95; 95; 95; 95; 95;
   95; 95; 95; 95; 95; 95; 95; 95; 135; 135; 135; 135; 135; 135; 135; 135;
   135; 135; 135; 135; 135; 135; 135; 135; 135; 135; 135; 135; 135; 135; 135; 135;
   135; 135; 135; 135; 135; 135; 135; 135; 135; 135; 135; 135; 175; 175; 175; 175;
   175; 175; 175; 175; 175; 175; 175; 175; 175; 175; 175; 175; 175; 175; 175; 175;
   175; 175; 175; 175; 175; 175; 175; 175; 175; 175; 175; 175; 175; 175; 175; 175;
   215; 215; 215; 215; 215; 215; 215; 215; 215; 215; 215; 215; 215; 215; 215; 215;
   215; 215; 215; 215; 215; 215; 215; 215; 215; 215; 215; 215; 215; 215; 215; 215;
   215; 215; 215; 215; 255; 255; 255; 255; 255; 255; 255; 255; 255; 255; 255; 255;
   255; 255; 255; 255; 255; 255; 255; 255; 255; 255; 255; 255; 255; 255; 255; 255;
   255; 255; 255; 255; 255; 255; 255; 255; 8; 18; 28; 38; 48; 58; 68; 78;
   88; 96; 102; 118; 128; 138; 148; 158; 168; 178; 188; 198; 208; 218; 228; 238]%Z.
Definition x256g : list Z := [
   0; 0; 128; 128; 0; 0; 128; 192; 128; 0; 255; 255; 0; 0; 255; 255;
   0; 0; 0; 0; 0; 0; 95; 95; 95; 95; 95; 95; 135; 135; 135; 135;
   135; 135; 175; 175; 175; 175; 175; 175; 215; 215; 215; 215; 215; 215; 255; 255;
   255; 255; 255; 255; 0; 0; 0; 0; 0; 0; 95; 95; 95; 95; 95; 95;
   135; 135; 135; 135; 135; 135; 175; 175; 175; 175; 175; 175; 215; 215; 215; 215;
   215; 215; 255; 255; 255; 255; 255; 255; 0; 0; 0; 0; 0; 0; 95; 95;
   95; 95; 95; 95; 135; 135; 135; 135; 135; 135; 175; 175; 175; 175; 175; 175;
   215; 215; 215; 215; 215; 215; 255; 255; 255; 255; 255; 255; 0; 0; 0; 0;
   0; 0; 95; 95; 95; 95; 95; 95; 135; 135; 135; 135; 135; 135; 175; 175;
   175; 175; 175; 175; 215; 215; 215; 215; 215; 215; 255; 255; 255; 255; 255; 255;
   0; 0; 0; 0; 0; 0; 95; 95; 95; 95; 95; 95; 135; 135; 135; 135;
   135; 135; 175; 175; 175; 175; 175; 175; 215; 215; 215; 215; 215; 215; 255; 255;
   255; 255; 255; 255; 0; 0; 0; 0; 0; 0; 95; 95; 95; 95; 95; 95;
   135; 135; 135; 135; 135; 135; 175; 175; 175; 175; 175; 175; 215; 215; 215; 215;
   215; 215; 255; 255; 255; 255; 255; 255; 8; 18; 28; 38; 48; 58; 68; 78;
   88; 96; 102; 118; 128; 138; 148; 158; 168; 178; 188; 198; 208; 218; 228; 238]%Z.
Definition x256b : list Z := [
   0; 0; 0; 0; 128; 128; 128; 192; 128; 0; 0; 0; 255; 255; 255; 255;
   0; 95; 135; 175; 215; 255; 0; 95; 135; 175; 215; 255; 0; 95; 135; 175;
   215; 255; 0; 95; 135; 175; 215; 255; 0; 95; 135; 175; 215; 255; 0; 95;
   135; 175; 215; 255; 0; 95; 135; 175; 215; 255; 0; 95; 135; 175; 215; 255;
   0; 95; 135; 175; 215; 255; 0; 95; 135; 175; 215; 255; 0; 95; 135; 175;
   215; 255; 0; 95; 135; 175; 215; 255; 0; 95; 135; 175; 215; 255; 0; 95;
   135; 175; 215; 255; 0; 95; 135; 175; 215; 255; 0; 95; 135; 175; 215; 255;
   0; 95; 135; 175; 215; 255; 0; 95; 135; 175; 215; 255; 0; 95; 135; 175;
   215; 255; 0; 95; 135; 175; 215; 255; 0; 95; 135; 175; 215; 255; 0; 95;
   135; 175; 215; 255; 0; 95; 135; 175; 215; 255; 0; 95; 135; 175; 215; 255;
   0; 95; 135; 175; 215; 255; 0; 95; 135; 175; 215; 255; 0; 95; 135; 175;
   215; 255; 0; 95; 135; 175; 215; 255; 0; 95; 135; 175; 215; 255; 0; 95;
   135; 175; 215; 255; 0; 95; 135; 175; 215; 255; 0; 95; 135; 175; 215; 255;
   0; 95; 135; 175; 215; 255; 0; 95; 135; 175; 215; 255; 0; 95; 135; 175;
   215; 255; 0; 95; 135; 175; 215; 255; 8; 18; 28; 38; 48; 58; 68; 78;
   88; 96; 102; 118; 128; 138; 148; 158; 168; 178; 188; 198; 208; 218; 228; 238]%Z.

(** [uint16(r-x256r[i]) + uint16(g-x256g[i]) + uint16(b-x256b[i])]: each
    difference is taken in [uint8], so it wraps; [None] when [i] is past
    the end of the tables. *)
Definition diff (r g b : Z) (i : nat) : option Z :=
  match x256r !! i, x256g !! i, x256b !! i with
  | Some xr, Some xg, Some xb =>
      Some (uint16 (uint16 (uint8 (r - xr)) + uint16 (uint8 (g - xg))
                    + uint16 (uint8 (b - xb))))
  | _, _, _ => None
  end.

(** The loop of [xterm256color], [todo] iterations from [i] on. *)
Fixpoint search (r g b : Z) (todo i : nat) (best index : Z) : Outcome Z :=
  match todo with
  | O => Val index
  | S todo' =>
      match diff r g b i with
      | None => Panic index_out_of_range
      | Some d =>
          if d <? best then search r g b todo' (S i) d (uint8 (Z.of_nat i))
          else search r g b todo' (S i) best index
      end
  end.

Definition xterm256color (r g b : Z) (n : Z) : Outcome Z :=
  search r g b (Z.to_nat n) 0 65535 0.

(** The local [gr] of [gray]:
    [(19595*r + 38470*g + 7471*b + 1<<15) >> 24], in [uint32]. *)
Definition gray_level (r g b : Z) : Z :=
  Z.shiftr
    (uint32 (uint32 (uint32 (uint32 (19595 * r) + uint32 (38470 * g))
                     + uint32 (7471 * b))
             + Z.shiftl 1 15))
    24.

End AsciiWriter.

(** ** More scenarios *)

Module Scenario2.
Import Scenario Dialer.

(** A client with a video track that has not negotiated. *)
Definition unnegotiated : Client :=
  with_Receivers (Some [videoReceiver]) dialed.

(** A URL without any of the four parameters, and an accessory that
    answers the dial anyway. *)
Definition bare_url : URL := {| Host := "192.168.1.9:5001"; Query := [] |}.
Definition lenient : Net :=
  {| url_Parse := fun _ => Ok bare_url;
     hap_DecodeKey := fun _ => [];
     hap_Dial := fun _ => None |}.




End Scenario2.

(** * Properties *)

(** ** Unfolding method bodies *)

Ltac unfold_M :=
  unfold bind, ret, emit, panic, out_of_fuel, getClient, getWorld,
    modClient, modWorld, liftOutcome,
    result_of, client_of, world_of, state_of, trace_of in *.

Section GetMediasProperties.
Import Negotiator Scenario.

Lemma GetMedias_cached env c w ms :
  Medias c = Some ms ->
  GetMedias env (c, w) = (Val (Some ms), (c, w), []).
Proof.
  intros H. unfold GetMedias, bind, getClient, ret. simpl. rewrite H. reflexivity.
Qed.

(** What one call on a client with nothing cached does, case by case. *)
Lemma GetMedias_uncached env c w :
  Medias c = None ->
  GetMedias env (c, w) =
    match hap_GetFirstAccessory env with
    | Err _ => (Val None, (c, w), [EvGetFirstAccessory])
    | Ok acc =>
      match GetCharacter acc TypeSupportedVideoStreamConfiguration with
      | None =>
          (Val None, (c, w),
           [EvGetFirstAccessory; EvGetCharacter TypeSupportedVideoStreamConfiguration])
      | Some vch =>
        let c1 := set_videoConfig (fst (ReadTLV8_video env vch (videoConfig c))) c in
        let t1 := [EvGetFirstAccessory;
                   EvGetCharacter TypeSupportedVideoStreamConfiguration;
                   EvReadTLV8 TypeSupportedVideoStreamConfiguration] in
        match snd (ReadTLV8_video env vch (videoConfig c)) with
        | Some _ => (Val None, (c1, w), t1)
        | None =>
          match GetCharacter acc TypeSupportedAudioStreamConfiguration with
          | None =>
              (Val None, (c1, w),
               t1 ++ [EvGetCharacter TypeSupportedAudioStreamConfiguration])
          | Some ach =>
            let c2 := set_audioConfig (fst (ReadTLV8_audio env ach (audioConfig c))) c1 in
            let t2 := t1 ++ [EvGetCharacter TypeSupportedAudioStreamConfiguration;
                             EvReadTLV8 TypeSupportedAudioStreamConfiguration] in
            match snd (ReadTLV8_audio env ach (audioConfig c)) with
            | Some _ => (Val None, (c2, w), t2)
            | None =>
                let ms := [videoToMedia env (VCodecs (videoConfig c2));
                           audioToMedia env (ACodecs (audioConfig c2))] in
                (Val (Some ms), (set_Medias (Some ms) c2, w), t2)
            end
          end
        end
      end
    end.
Proof.
  intros H.
  unfold GetMedias, GetFirstAccessory, lookup, readVideoConfig, readAudioConfig.
  unfold_M. simpl. rewrite H.
  destruct (hap_GetFirstAccessory env) as [acc|e]; simpl; [|reflexivity].
  destruct (GetCharacter acc TypeSupportedVideoStreamConfiguration) as [vch|];
    simpl; [|reflexivity].
  destruct (ReadTLV8_video env vch (videoConfig c)) as [vc [e|]]; simpl;
    [reflexivity|].
  destruct (GetCharacter acc TypeSupportedAudioStreamConfiguration) as [ach|];
    simpl; [|reflexivity].
  destruct (ReadTLV8_audio env ach (audioConfig c)) as [ac [e|]]; simpl;
    reflexivity.
Qed.

Lemma GetMedias_some_cached env c w ms c' w' tr :
  GetMedias env (c, w) = (Val (Some ms), (c', w'), tr) ->
  Medias c' = Some ms.
Proof.
  destruct (Medias c) as [ms0|] eqn:E.
  - rewrite (GetMedias_cached _ _ _ _ E). intros [= <- <- <- <-]. exact E.
  - rewrite (GetMedias_uncached _ _ _ E).
    repeat match goal with
           | |- context [match ?x with _ => _ end] => destruct x
           end; simpl; intros H; inversion H; reflexivity.
Qed.

Lemma GetMedias_none_fails env c w :
  result_of (GetMedias env (c, w)) = Val None <-> some_step_fails env c = true.
Proof.
  unfold some_step_fails.
  destruct (Medias c) as [ms0|] eqn:E.
  - rewrite (GetMedias_cached _ _ _ _ E). simpl. split; discriminate.
  - rewrite (GetMedias_uncached _ _ _ E).
    destruct (hap_GetFirstAccessory env) as [acc|e]; [|simpl; tauto].
    destruct (GetCharacter acc TypeSupportedVideoStreamConfiguration) as [vch|];
      [|simpl; tauto].
    destruct (ReadTLV8_video env vch (videoConfig c)) as [vc [e|]]; simpl;
      [tauto|].
    destruct (GetCharacter acc TypeSupportedAudioStreamConfiguration) as [ach|];
      [|simpl; tauto].
    destruct (ReadTLV8_audio env ach (audioConfig c)) as [ac [e|]]; simpl;
      [tauto|].
    split; discriminate.
Qed.

(** C6. [GetMedias] is idempotent: once a call has succeeded and cached a
    media list, every later call, whatever the accessory would answer,
    returns that same list, leaves the client as it is and performs no
    accessory read and no capability lookup (its trace is empty). *)
Theorem GetMedias_idempotent env c w ms c' w' tr (envs : list Env) :
  GetMedias env (c, w) = (Val (Some ms), (c', w'), tr) ->
  GetMedias_calls envs (c', w') =
    (map (fun _ => (Val (Some ms), [])) envs, (c', w')).
Proof.
  intros H. apply GetMedias_some_cached in H.
  induction envs as [|env2 envs IH]; simpl; [reflexivity|].
  rewrite (GetMedias_cached env2 c' w' ms H). unfold state_of. simpl.
  rewrite IH. reflexivity.
Qed.

Lemma GetMedias_idempotent_witness :
  GetMedias_calls [camera_unreachable; camera_without_audio] (negotiated, world0) =
    (map (fun _ => (Val (Medias negotiated), []))
       [camera_unreachable; camera_without_audio],
     (negotiated, world0)).
Proof.
  apply (GetMedias_idempotent camera dialed world0
           [videoToMedia camera [h264]; audioToMedia camera [opus]]
           negotiated world0
           [EvGetFirstAccessory;
            EvGetCharacter TypeSupportedVideoStreamConfiguration;
            EvReadTLV8 TypeSupportedVideoStreamConfiguration;
            EvGetCharacter TypeSupportedAudioStreamConfiguration;
            EvReadTLV8 TypeSupportedAudioStreamConfiguration]).
  reflexivity.
Defined.

(** C9. When a step of [GetMedias] fails and it returns no media, the
    media-list cache is still nil afterwards, so the next call starts
    over: it reads the accessory description again, then looks the video
    capability up again, then (when that decodes) the audio capability,
    and it returns a media list whenever no step fails this time. *)
Theorem GetMedias_failure_not_cached env c w c' w' tr :
  GetMedias env (c, w) = (Val None, (c', w'), tr) ->
  Medias c' = None /\
  forall env2,
    exists rest,
      trace_of (GetMedias env2 (c', w')) = EvGetFirstAccessory :: rest /\
      (forall acc, hap_GetFirstAccessory env2 = Ok acc ->
         exists rest',
           rest = EvGetCharacter TypeSupportedVideoStreamConfiguration :: rest' /\
           (forall vch,
              GetCharacter acc TypeSupportedVideoStreamConfiguration = Some vch ->
              snd (ReadTLV8_video env2 vch (videoConfig c')) = None ->
              EvGetCharacter TypeSupportedAudioStreamConfiguration ∈ rest')) /\
      (some_step_fails env2 c' = false ->
         exists ms, result_of (GetMedias env2 (c', w')) = Val (Some ms)).
Proof.
  intros H.
  assert (Hc : Medias c' = None).
  { destruct (Medias c) as [ms0|] eqn:E.
    - rewrite (GetMedias_cached _ _ _ _ E) in H. discriminate.
    - rewrite (GetMedias_uncached _ _ _ E) in H.
      repeat match type of H with
             | context [match ?x with _ => _ end] => destruct x
             end; simpl in H; inversion H; subst; simpl; assumption. }
  split; [exact Hc|]. intros env2.
  pose proof (GetMedias_none_fails env2 c' w') as Hn.
  rewrite (GetMedias_uncached _ _ _ Hc) in *.
  destruct (hap_GetFirstAccessory env2) as [acc|e] eqn:Ea.
  2:{ eexists; split; [reflexivity|]. split; [discriminate|].
      intros Hf. destruct Hn as [Hn _]. rewrite Hn in Hf by reflexivity.
      discriminate. }
  destruct (GetCharacter acc TypeSupportedVideoStreamConfiguration) as [vch|] eqn:Ev.
  2:{ eexists; split; [reflexivity|]. split.
      - intros acc' [= <-]. eexists; split; [reflexivity|].
        rewrite Ev. discriminate.
      - intros Hf. destruct Hn as [Hn _]. rewrite Hn in Hf by reflexivity.
        discriminate. }
  simpl.
  destruct (snd (ReadTLV8_video env2 vch (videoConfig c'))) as [e|] eqn:Ed.
  { eexists; split; [reflexivity|]. split.
    - intros acc' [= <-]. eexists; split; [reflexivity|].
      rewrite Ev. intros vch' [= <-] Hd. rewrite Ed in Hd. discriminate.
    - intros Hf. destruct Hn as [Hn _]. rewrite Hn in Hf by reflexivity.
      discriminate. }
  destruct (GetCharacter acc TypeSupportedAudioStreamConfiguration) as [ach|] eqn:Eu.
  2:{ eexists; split; [reflexivity|]. split.
      - intros acc' [= <-]. eexists; split; [reflexivity|].
        intros _ _ _. repeat constructor.
      - intros Hf. destruct Hn as [Hn _]. rewrite Hn in Hf by reflexivity.
        discriminate. }
  destruct (snd (ReadTLV8_audio env2 ach (audioConfig c'))) as [e|] eqn:Ef.
  { eexists; split; [reflexivity|]. split.
    - intros acc' [= <-]. eexists; split; [reflexivity|].
      intros _ _ _. repeat constructor.
    - intros Hf. destruct Hn as [Hn _]. rewrite Hn in Hf by reflexivity.
      discriminate. }
  eexists; split; [reflexivity|]. split.
  - intros acc' [= <-]. eexists; split; [reflexivity|].
    intros _ _ _. repeat constructor.
  - intros _. eexists; reflexivity.
Qed.

Lemma GetMedias_failure_not_cached_witness :
  Medias (client_of (GetMedias camera_without_audio (dialed, world0))) = None /\
  exists ms,
    result_of (GetMedias camera
                 (state_of (GetMedias camera_without_audio (dialed, world0))))
    = Val (Some ms).
Proof.
  destruct (GetMedias_failure_not_cached camera_without_audio dialed world0
              (set_videoConfig {| VCodecs := [h264] |} dialed) world0
              [EvGetFirstAccessory;
               EvGetCharacter TypeSupportedVideoStreamConfiguration;
               EvReadTLV8 TypeSupportedVideoStreamConfiguration;
               EvGetCharacter TypeSupportedAudioStreamConfiguration]
              eq_refl) as [Hnil Hnext].
  split; [exact Hnil|].
  destruct (Hnext camera) as [rest [_ [_ Hok]]].
  exact (Hok eq_refl).
Defined.

(** C4, as stated, fails: with the video capability decoded and the audio
    characteristic absent, [GetMedias] returns no media but the client
    keeps the video descriptor it has just decoded next to an audio
    descriptor that was never read. *)
Lemma GetMedias_keeps_decoded_video_descriptor :
  ~ (forall env c w,
       some_step_fails env c = true ->
       result_of (GetMedias env (c, w)) = Val None /\
       Medias (client_of (GetMedias env (c, w))) = None /\
       videoConfig (client_of (GetMedias env (c, w))) = videoConfig c /\
       audioConfig (client_of (GetMedias env (c, w))) = audioConfig c).
Proof.
  intros H.
  destruct (H camera_without_audio dialed world0 eq_refl) as [_ [_ [Hv _]]].
  vm_compute in Hv. discriminate Hv.
Qed.

(** C4, amended. When a step of [GetMedias] fails, it returns no media and
    the media list is not cached; receivers, sessions, stream handle and
    the world are untouched.  The descriptors are decoded in place and not
    rolled back: they are as before only when the failure precedes the
    first decode (description unreadable or video characteristic
    absent), and the audio descriptor is as before whenever the failure
    precedes the audio decode.  Once the video decode has run, the
    client's video descriptor is what that decode left in it, whether it
    is this decode that failed or a later step; and once the audio decode
    has run (and failed), the audio descriptor is what it left. *)
Theorem GetMedias_failure_returns_no_media env c w :
  some_step_fails env c = true ->
  result_of (GetMedias env (c, w)) = Val None /\
  Medias (client_of (GetMedias env (c, w))) = None /\
  Receivers (client_of (GetMedias env (c, w))) = Receivers c /\
  videoSession (client_of (GetMedias env (c, w))) = videoSession c /\
  audioSession (client_of (GetMedias env (c, w))) = audioSession c /\
  stream (client_of (GetMedias env (c, w))) = stream c /\
  world_of (GetMedias env (c, w)) = w /\
  (fails_before_decoding env = true -> client_of (GetMedias env (c, w)) = c) /\
  (EvReadTLV8 TypeSupportedAudioStreamConfiguration ∉ trace_of (GetMedias env (c, w)) ->
   audioConfig (client_of (GetMedias env (c, w))) = audioConfig c) /\
  (forall acc vch,
     hap_GetFirstAccessory env = Ok acc ->
     GetCharacter acc TypeSupportedVideoStreamConfiguration = Some vch ->
     videoConfig (client_of (GetMedias env (c, w))) =
       fst (ReadTLV8_video env vch (videoConfig c)) /\
     (snd (ReadTLV8_video env vch (videoConfig c)) <> None \/
      GetCharacter acc TypeSupportedAudioStreamConfiguration = None ->
      client_of (GetMedias env (c, w)) =
        set_videoConfig (fst (ReadTLV8_video env vch (videoConfig c))) c) /\
     (forall ach,
        snd (ReadTLV8_video env vch (videoConfig c)) = None ->
        GetCharacter acc TypeSupportedAudioStreamConfiguration = Some ach ->
        client_of (GetMedias env (c, w)) =
          set_audioConfig (fst (ReadTLV8_audio env ach (audioConfig c)))
            (set_videoConfig (fst (ReadTLV8_video env vch (videoConfig c))) c))).
Proof.
  unfold some_step_fails, fails_before_decoding.
  destruct (Medias c) as [ms0|] eqn:E; [discriminate|].
  rewrite (GetMedias_uncached _ _ _ E).
  destruct (hap_GetFirstAccessory env) as [acc|e].
  2:{ intros _. unfold_M. simpl. rewrite E.
      repeat match goal with |- _ /\ _ => split end; auto; discriminate. }
  destruct (GetCharacter acc TypeSupportedVideoStreamConfiguration) as [vch|] eqn:Ec.
  2:{ intros _. unfold_M. simpl. rewrite E.
      repeat match goal with |- _ /\ _ => split end; auto.
      intros acc' vch' [= <-]. rewrite Ec. discriminate. }
  destruct (ReadTLV8_video env vch (videoConfig c)) as [vc [e|]] eqn:Ev; simpl.
  { intros _. unfold_M. simpl. rewrite E.
    repeat match goal with |- _ /\ _ => split end; auto; try discriminate.
    intros acc' vch' [= <-]. rewrite Ec. intros [= <-]. rewrite Ev. cbn [fst snd].
    repeat match goal with |- _ /\ _ => split end; auto. discriminate. }
  destruct (GetCharacter acc TypeSupportedAudioStreamConfiguration) as [ach|] eqn:Eu.
  2:{ intros _. unfold_M. simpl. rewrite E.
      repeat match goal with |- _ /\ _ => split end; auto; try discriminate.
      intros acc' vch' [= <-]. rewrite Ec. intros [= <-]. rewrite Ev, Eu.
      cbn [fst snd].
      repeat match goal with |- _ /\ _ => split end; auto. discriminate. }
  destruct (ReadTLV8_audio env ach (audioConfig c)) as [ac [e|]] eqn:Ea; simpl;
    [|discriminate].
  intros _. unfold_M. simpl. rewrite E.
  repeat match goal with |- _ /\ _ => split end; auto; try discriminate.
  - intros Hn. exfalso. apply Hn. repeat constructor.
  - intros acc' vch' [= <-]. rewrite Ec. intros [= <-]. rewrite Ev, Eu.
    cbn [fst snd].
    repeat match goal with |- _ /\ _ => split end; auto.
    + intros [H|H]; [exfalso; apply H; reflexivity | discriminate].
    + intros ach' _ [= <-]. rewrite Ea. reflexivity.
Qed.

Lemma GetMedias_failure_returns_no_media_witness :
  result_of (GetMedias camera_without_audio (dialed, world0)) = Val None /\
  videoConfig (client_of (GetMedias camera_without_audio (dialed, world0))) =
    {| VCodecs := [h264] |} /\
  client_of (GetMedias camera_without_audio (dialed, world0)) =
    set_videoConfig {| VCodecs := [h264] |} dialed.
Proof.
  destruct (GetMedias_failure_returns_no_media camera_without_audio dialed world0
              eq_refl) as (Hr & _ & _ & _ & _ & _ & _ & _ & _ & Hd).
  destruct (Hd {| Characters := [videoChar] |} videoChar eq_refl eq_refl)
    as (Hv & Hc & _).
  split; [exact Hr|]. split; [exact Hv|].
  apply Hc. right. reflexivity.
Defined.

End GetMediasProperties.

(** ** Start: the paths through the method *)

Ltac unfold_Start :=
  unfold Homekit.Start, Homekit.startMJPEG, Sessions.srtpEndpoint, Sessions.RandString,
    Sessions.Uint32, Sessions.newSession, Sessions.NewStream, Sessions.AddSession,
    Bridge.NewTimer, Sessions.setOnReadRTP, Sessions.index0, Sessions.elems;
  unfold_M.

Ltac finish_await :=
  lazymatch goal with
  | |- _ = (let (_, _) := Bridge.await ?e ?d ?s2 in _) =>
      match goal with
      | |- context [Bridge.await e d ?s1] => change s1 with s2
      end;
      destruct (Bridge.await e d s2) as [[[u|m|] s'] t]; simpl;
      rewrite ?app_nil_r; reflexivity
  end.

Section StartProperties.
Import Sessions Bridge Homekit Run Scenario.

Lemma lookup_snoc2_l {A} (l : list A) a b : ((l ++ [a]) ++ [b]) !! length l = Some a.
Proof. induction l; simpl; auto. Qed.

Lemma lookup_snoc2_r {A} (l : list A) a a' b :
  ((l ++ [a]) ++ [b]) !! length (l ++ [a']) = Some b.
Proof. induction l; simpl; auto. Qed.

Lemma alter_snoc2_l {A} (f : A -> A) (l : list A) a b :
  alter f (length l) ((l ++ [a]) ++ [b]) = (l ++ [f a]) ++ [b].
Proof. induction l; simpl; f_equal; auto. Qed.

Lemma alter_snoc2_r {A} (f : A -> A) (l : list A) a a' b :
  alter f (length (l ++ [a'])) ((l ++ [a]) ++ [b]) = (l ++ [a]) ++ [f b].
Proof. induction l; simpl; f_equal; auto. Qed.

Local Arguments seq : simpl never.
Local Arguments map : simpl never.

(** The streaming path, from session setup on. *)
Lemma Start_streaming env fuel c w vc ac :
  reaches_setup env c = Some (vc, ac) ->
  Start env fuel (c, w) =
    match camera_NewStream env vc ac
            (endpoint_at env (rand_pos w))
            (endpoint_at env (S (rand_pos w + 16 + 14))) with
    | Err e =>
        (Val (Some e),
         (set_stream None (setup_client env c w), setup_world env w),
         setup_trace env w (Some e))
    | Ok st =>
        after_await (streaming_trace env w)
          (await env (deliveries env) (wired_state env c w st))
    end.
Proof.
  unfold reaches_setup. intros H.
  destruct (Receivers c) as [[|r0 rs]|] eqn:HR; try discriminate.
  destruct (String.eqb (Name (Codec_ r0)) CodecJPEG) eqn:HJ; try discriminate.
  destruct (VCodecs (videoConfig c)) as [|v0 vl] eqn:HV; try discriminate.
  destruct (trackToVideo env (trackByKind c KindVideo) v0) as [vc'| |] eqn:HtV;
    try discriminate.
  destruct (ACodecs (audioConfig c)) as [|a0 al] eqn:HA; try discriminate.
  destruct (trackToAudio env (trackByKind c KindAudio) a0) as [ac'| |] eqn:HtA;
    try discriminate.
  injection H as -> ->.
  unfold_Start. simpl. rewrite HR. simpl. rewrite HJ, HV. simpl.
  rewrite HtV, HA. simpl. rewrite HtA. simpl.
  rewrite lookup_snoc2_l, lookup_snoc2_r. simpl.
  fold (endpoint_at env (rand_pos w)).
  fold (endpoint_at env (S (rand_pos w + 16 + 14))).
  destruct (camera_NewStream _ _ _ _ _) as [st|e]; simpl; [|reflexivity].
  unfold wired_state, waiting, wired_heap, after_await, streaming_trace.
  destruct (trackByKind c KindVideo) as [vt|]; simpl.
  - destruct (trackByKind c KindAudio) as [at_|]; simpl;
      rewrite ?alter_snoc2_l, ?alter_snoc2_r; finish_await.
  - rewrite ?alter_snoc2_l, ?alter_snoc2_r; finish_await.
Qed.

(** The polling loop touches neither client nor world and registers
    nothing. *)
Lemma mjpegLoop_quiet env receiver fuel : forall i s,
  state_of (mjpegLoop env receiver i fuel s) = s /\
  forallb (fun e => negb (is_AddSession e))
    (trace_of (mjpegLoop env receiver i fuel s)) = true.
Proof.
  induction fuel as [|fuel IH]; intros i s; [split; reflexivity|].
  simpl. unfold WriteRTP. unfold_M. simpl.
  destruct (hap_GetImage env i) as [b|e]; simpl; [|split; reflexivity].
  specialize (IH (S i) s).
  destruct (mjpegLoop env receiver (S i) fuel s) as [[r s'] t]. simpl in *.
  exact IH.
Qed.

(** Every path that stops short of session setup. *)
Lemma Start_short env fuel c w :
  reaches_setup env c = None ->
  state_of (Start env fuel (c, w)) = (c, w) /\
  forallb (fun e => negb (is_AddSession e)) (trace_of (Start env fuel (c, w))) = true.
Proof.
  unfold reaches_setup. intros H.
  unfold_Start. simpl.
  destruct (Receivers c) as [[|r0 rs]|] eqn:HR; simpl; try (split; reflexivity).
  destruct (String.eqb (Name (Codec_ r0)) CodecJPEG) eqn:HJ.
  { simpl. rewrite HR. simpl.
    pose proof (mjpegLoop_quiet env r0 fuel 0 (c, w)) as Hq.
    destruct (mjpegLoop env r0 0 fuel (c, w)) as [[r s'] t]. simpl in *.
    exact Hq. }
  destruct (VCodecs (videoConfig c)) as [|v0 vl] eqn:HV; simpl;
    try (split; reflexivity).
  destruct (trackToVideo env (trackByKind c KindVideo) v0) as [vc'| |] eqn:HtV;
    simpl; try (split; reflexivity).
  destruct (ACodecs (audioConfig c)) as [|a0 al] eqn:HA; simpl;
    try (split; reflexivity).
  destruct (trackToAudio env (trackByKind c KindAudio) a0) as [ac'| |] eqn:HtA;
    simpl; try (split; reflexivity).
  discriminate.
Qed.

End StartProperties.

(** ** The bridge while [Start] waits *)

Section BridgeProperties.
Import Sessions Bridge Homekit Run Scenario.

Lemma wired_heap_lookup env c w r :
  wired_heap env c w !! (match r with
                         | VideoRole => video_ptr w
                         | AudioRole => audio_ptr env w
                         end) =
  Some {| Local := endpoint_at env (match r with
                                    | VideoRole => rand_pos w
                                    | AudioRole => S (rand_pos w + 16 + 14)
                                    end);
          OnReadRTP := installed c r;
          Recv := 0 |}.
Proof.
  unfold wired_heap, installed, video_ptr, audio_ptr.
  destruct r, (trackByKind c KindVideo) as [vt|];
    try destruct (trackByKind c KindAudio) as [at_|];
    rewrite ?lookup_snoc2_l, ?lookup_snoc2_r; reflexivity.
Qed.

Lemma registered_both env w (reg : list ptr) r :
  (match r with VideoRole => video_ptr w | AudioRole => audio_ptr env w end)
  ∈ (reg ++ [video_ptr w]) ++ [audio_ptr env w].
Proof.
  destruct r; rewrite !elem_of_app, !list_elem_of_singleton; auto.
Qed.

(** A delivery runs the handler installed for its session, at the
    arrival time of the packet. *)
Local Arguments installed : simpl never.

Lemma deliver_waiting env c w st dl t d :
  deliver env d (waiting env c w st dl t) =
    match installed c (to d) with
    | Some h => call env h (packet d) (waiting env c w st dl (at_time d))
    | None => (Val tt, waiting env c w st dl (at_time d), [])
    end.
Proof.
  unfold deliver, waiting. unfold_M. simpl.
  pose proof (wired_heap_lookup env c w (to d)) as Hh.
  pose proof (registered_both env w (registry w) (to d)) as Hr.
  destruct (to d); simpl;
    rewrite (bool_decide_eq_true_2 _ Hr), Hh; simpl;
    destruct (installed c _) as [[[track|]|track]|]; reflexivity.
Qed.

Lemma call_waiting env c w st dl t h p :
  call env h p (waiting env c w st dl t) =
    match h with
    | ResetThenWrite (Some track) =>
        (Val tt, waiting env c w st (t + ConnDeadline env) t,
         [EvReset (t + ConnDeadline env); EvWriteRTP (rid track) p])
    | ResetThenWrite None =>
        (Panic nil_dereference, waiting env c w st (t + ConnDeadline env) t,
         [EvReset (t + ConnDeadline env)])
    | WriteTo track =>
        (Val tt, waiting env c w st dl t, [EvWriteRTP (rid track) p])
    end.
Proof.
  destruct h as [[track|]|track]; reflexivity.
Qed.

(** Waiting changes the timer and the clock, nothing else, and registers
    nothing. *)
Lemma await_waiting env c w st ds : forall dl t,
  exists r dl' t' tr,
    await env ds (waiting env c w st dl t) = (r, waiting env c w st dl' t', tr) /\
    forallb (fun e => negb (is_AddSession e)) tr = true.
Proof.
  induction ds as [|d ds IH]; intros dl t; simpl.
  - eexists _, _, _, _. split; reflexivity.
  - unfold bind at 1. unfold getWorld at 1. cbn [fst snd waiting deadline].
    destruct (dl <=? at_time d)%Z.
    + eexists _, _, _, _. split; reflexivity.
    + unfold bind at 1. rewrite deliver_waiting.
      destruct (installed c (to d)) as [h|].
      * rewrite call_waiting.
        destruct h as [[track|]|track].
        -- destruct (IH (at_time d + ConnDeadline env)%Z (at_time d))
             as (r & dl' & t' & tr & -> & Hq).
           eexists _, _, _, _. split; [reflexivity|]. simpl. exact Hq.
        -- eexists _, _, _, _. split; reflexivity.
        -- destruct (IH dl (at_time d)) as (r & dl' & t' & tr & -> & Hq).
           eexists _, _, _, _. split; [reflexivity|]. simpl. exact Hq.
      * destruct (IH dl (at_time d)) as (r & dl' & t' & tr & -> & Hq).
        eexists _, _, _, _. split; [reflexivity|]. simpl. exact Hq.
Qed.

(** With both tracks present the wait ends, without a panic, when the
    timer set by the video packets fires. *)
Lemma await_both_tracks env c w st vt at_ ds :
  trackByKind c KindVideo = Some vt ->
  trackByKind c KindAudio = Some at_ ->
  forall dl t,
    exists tr,
      await env ds (waiting env c w st dl t) =
        (Val tt,
         waiting env c w st (fire_time (ConnDeadline env) dl ds)
           (fire_time (ConnDeadline env) dl ds),
         tr).
Proof.
  intros HV HA.
  induction ds as [|d ds IH]; intros dl t; simpl.
  - eexists. reflexivity.
  - unfold bind at 1. unfold getWorld at 1. cbn [fst snd waiting deadline].
    destruct (dl <=? at_time d)%Z.
    + eexists. reflexivity.
    + unfold bind at 1. rewrite deliver_waiting. unfold installed.
      rewrite HV, HA.
      destruct (to d); rewrite call_waiting.
      * destruct (IH (at_time d + ConnDeadline env)%Z (at_time d)) as [tr ->].
        eexists. reflexivity.
      * destruct (IH dl (at_time d)) as [tr ->]. eexists. reflexivity.
Qed.

Lemma in_order_weaken a b ds : (a <= b)%Z -> in_order b ds -> in_order a ds.
Proof. destruct ds as [|d ds]; simpl; [auto|]. intros ? [? ?]. split; [lia|auto]. Qed.

Lemma in_order_elem ds : forall a d, in_order a ds -> d ∈ ds -> (a <= at_time d)%Z.
Proof.
  induction ds as [|d0 ds IH]; intros a d Hs Hin; [inversion Hin|].
  destruct Hs as [H0 Hs]. apply elem_of_cons in Hin as [->|Hin]; [exact H0|].
  specialize (IH _ _ Hs Hin). lia.
Qed.

(** The timer never fires before a full window has passed since the
    instant it stood at or since the earliest packet still to come. *)
Lemma fire_time_lower D ds : forall a dl,
  in_order a ds -> (Z.min dl (a + D) <= fire_time D dl ds)%Z.
Proof.
  induction ds as [|d ds IH]; intros a dl Hs; simpl; [lia|].
  destruct Hs as [H0 Hs].
  destruct (dl <=? at_time d)%Z; [lia|].
  destruct (to d).
  - specialize (IH (at_time d) (at_time d + D)%Z Hs). lia.
  - specialize (IH a dl (in_order_weaken _ _ _ H0 Hs)). lia.
Qed.

(** When the timer fires, every video packet that came before has been
    followed by a full window. *)
Lemma fire_time_window D ds : forall a dl d,
  in_order a ds -> d ∈ ds -> to d = VideoRole ->
  (at_time d < fire_time D dl ds)%Z ->
  (at_time d + D <= fire_time D dl ds)%Z.
Proof.
  induction ds as [|d0 ds IH]; intros a dl d Hs Hin Hv Hlt; [inversion Hin|].
  destruct Hs as [H0 Hs]. simpl in *.
  destruct (dl <=? at_time d0)%Z eqn:Hfire.
  - apply Z.leb_le in Hfire.
    pose proof (in_order_elem (d0 :: ds) a d (conj H0 Hs) Hin).
    apply elem_of_cons in Hin as [->|Hin]; [lia|].
    pose proof (in_order_elem ds _ d Hs Hin). lia.
  - apply elem_of_cons in Hin as [->|Hin].
    + rewrite Hv in *.
      pose proof (fire_time_lower D ds (at_time d0) (at_time d0 + D)%Z Hs). lia.
    + eapply IH; eauto.
Qed.

(** C3, as stated, fails: with both tracks present a packet delivered to
    the audio session's callback, here two seconds into a five-second
    window, leaves the deadline where it was. *)
Lemma audio_packet_does_not_reset_deadline :
  ~ (forall env c w st vt at_ d dl t,
       trackByKind c KindVideo = Some vt ->
       trackByKind c KindAudio = Some at_ ->
       (at_time d < dl)%Z ->
       deadline (world_of (deliver env d (waiting env c w st dl t))) =
         (at_time d + ConnDeadline env)%Z).
Proof.
  intros H.
  specialize (H camera both_tracks world0 {| stream_id := 1 |}
                videoReceiver audioReceiver audio_packet_at_2s
                5000000000%Z 1000000000%Z eq_refl eq_refl eq_refl).
  vm_compute in H. discriminate H.
Qed.

(** C3, amended. After a successful setup in streaming mode with a video
    and an audio track, [Start] waits in the state [waiting]; there a
    packet delivered to the video session's callback resets the shared
    deadline to its arrival time plus [ConnDeadline] and is written to
    the video track, while a packet delivered to the audio session's
    callback is written to the audio track and leaves the deadline alone.
    For every finite sequence of deliveries [Start] returns nil, at the
    instant the timer fires; by then every video packet that arrived
    earlier is at least a full window old. *)
Theorem Start_returns_when_video_deadline_fires env fuel c w vc ac st vt at_ :
  reaches_setup env c = Some (vc, ac) ->
  camera_NewStream env vc ac
    (endpoint_at env (rand_pos w))
    (endpoint_at env (S (rand_pos w + 16 + 14))) = Ok st ->
  trackByKind c KindVideo = Some vt ->
  trackByKind c KindAudio = Some at_ ->
  Start env fuel (c, w) =
    after_await (streaming_trace env w)
      (await env (deliveries env)
         (waiting env c w st (now w + ConnDeadline env)%Z (now w))) /\
  (forall d dl t, to d = VideoRole ->
     deliver env d (waiting env c w st dl t) =
       (Val tt,
        waiting env c w st (at_time d + ConnDeadline env)%Z (at_time d),
        [EvReset (at_time d + ConnDeadline env)%Z;
         EvWriteRTP (rid vt) (packet d)])) /\
  (forall d dl t, to d = AudioRole ->
     deliver env d (waiting env c w st dl t) =
       (Val tt, waiting env c w st dl (at_time d),
        [EvWriteRTP (rid at_) (packet d)])) /\
  result_of (Start env fuel (c, w)) = Val None /\
  now (world_of (Start env fuel (c, w))) =
    fire_time (ConnDeadline env) (now w + ConnDeadline env)%Z (deliveries env) /\
  (in_order (now w) (deliveries env) ->
   forall d, d ∈ deliveries env -> to d = VideoRole ->
     (at_time d <
        fire_time (ConnDeadline env) (now w + ConnDeadline env) (deliveries env))%Z ->
     (at_time d + ConnDeadline env <=
        fire_time (ConnDeadline env) (now w + ConnDeadline env) (deliveries env))%Z).
Proof.
  intros Hs Ho HV HA.
  pose proof (Start_streaming env fuel c w vc ac Hs) as HS.
  rewrite Ho in HS. unfold wired_state in HS.
  split; [exact HS|].
  split.
  { intros d dl t Hd. rewrite deliver_waiting, Hd. unfold installed.
    rewrite HV. apply call_waiting. }
  split.
  { intros d dl t Hd. rewrite deliver_waiting, Hd. unfold installed.
    rewrite HV, HA. apply call_waiting. }
  destruct (await_both_tracks env c w st vt at_ (deliveries env) HV HA
              (now w + ConnDeadline env)%Z (now w)) as [tr Htr].
  rewrite HS, Htr.
  split; [reflexivity|]. split; [reflexivity|].
  intros Hord d Hin Hd Hlt.
  exact (fire_time_window _ _ _ _ d Hord Hin Hd Hlt).
Qed.

Lemma Start_returns_when_video_deadline_fires_witness :
  result_of (Start camera 0 (both_tracks, world0)) = Val None /\
  now (world_of (Start camera 0 (both_tracks, world0))) = 6000000000%Z.
Proof.
  destruct (Start_returns_when_video_deadline_fires camera 0 both_tracks world0
              h264 opus {| stream_id := 1 |} videoReceiver audioReceiver
              eq_refl eq_refl eq_refl eq_refl) as (_ & _ & _ & Hr & Ht & _).
  split; [exact Hr | exact Ht].
Defined.

End BridgeProperties.

(** ** Sessions and the registry *)

Section SessionProperties.
Import Sessions Bridge Homekit Run Scenario.

Lemma endpoint_at_shape env pos :
  length (MasterKey (endpoint_at env pos)) = 16 /\
  length (MasterSalt (endpoint_at env pos)) = 14 /\
  (0 <= SSRC (endpoint_at env pos) < 2 ^ 32)%Z.
Proof.
  unfold endpoint_at; cbn [MasterKey MasterSalt SSRC]. rewrite !length_map, !length_seq.
  repeat split; try apply Z.mod_pos_bound; lia.
Qed.

Lemma audio_ptr_next env w : audio_ptr env w = S (video_ptr w).
Proof. unfold audio_ptr, video_ptr. rewrite length_app. simpl. lia. Qed.

Lemma filter_all {A} (P : A -> Prop) `{forall x, Decision (P x)} (l : list A) :
  Forall P l -> filter P l = l.
Proof.
  induction 1 as [|x l Hx Hl IH]; [reflexivity|].
  rewrite filter_cons. destruct (decide (P x)); [|contradiction].
  rewrite IH. reflexivity.
Qed.

Lemma Stop_registry env c w :
  registry (world_of (Stop env (c, w))) =
    match audioSession c with
    | Some a => filter (fun x => x <> a)
    | None => fun l => l
    end (match videoSession c with
         | Some v => filter (fun x => x <> v) (registry w)
         | None => registry w
         end).
Proof.
  destruct (videoSession c) eqn:Ev, (audioSession c) eqn:Ea;
    unfold Stop, DelSession; unfold_M; simpl; rewrite Ev; simpl; rewrite Ea;
    reflexivity.
Qed.

Lemma registered_after_open_quiet tr : forall b,
  forallb (fun e => negb (is_AddSession e)) tr = true ->
  registered_after_open b tr = true.
Proof.
  induction tr as [|e tr IH]; intros b H; [reflexivity|].
  simpl in H. apply andb_prop in H as [He Ht].
  destruct e; simpl; try (apply IH; exact Ht); try discriminate.
  destruct r; apply IH; exact Ht.
Qed.

(** What the monitor accepts: an [EvAddSession] only after a successful
    [EvNewStream]. *)
Lemma registered_after_open_sound pre : forall b p post,
  registered_after_open b (pre ++ EvAddSession p :: post) = true ->
  b = true \/ exists v a, EvNewStream v a None ∈ pre.
Proof.
  induction pre as [|e pre IH]; intros b p post H; simpl in H.
  - apply andb_prop in H as [Hb _]. left. exact Hb.
  - assert (Hcase : (exists v a, e = EvNewStream v a None) \/
                    (registered_after_open b (pre ++ EvAddSession p :: post) = true)).
    { destruct e; try (right; exact H).
      - destruct r; [right; exact H|]. left. eexists _, _. reflexivity.
      - apply andb_prop in H as [_ H]. right. exact H. }
    destruct Hcase as [(v & a & ->)|H'].
    + right. exists v, a. left.
    + destruct (IH _ _ _ H') as [Hb|(v & a & Hin)]; [left; exact Hb|].
      right. exists v, a. right. exact Hin.
Qed.

Lemma Start_trace_monitored env fuel c w :
  registered_after_open false (trace_of (Start env fuel (c, w))) = true.
Proof.
  destruct (reaches_setup env c) as [[vc ac]|] eqn:Hs.
  - rewrite (Start_streaming env fuel c w vc ac Hs).
    destruct (camera_NewStream _ _ _ _ _) as [st|e]; [|reflexivity].
    unfold wired_state.
    destruct (await_waiting env c w st (deliveries env)
                (now w + ConnDeadline env)%Z (now w))
      as (r & dl' & t' & tr & -> & Hq).
    destruct r; simpl; apply registered_after_open_quiet; exact Hq.
  - apply registered_after_open_quiet. apply (Start_short env fuel c w Hs).
Qed.

(** The state in which [Start] ends on the streaming path. *)
Lemma Start_streaming_end env fuel c w vc ac st :
  reaches_setup env c = Some (vc, ac) ->
  camera_NewStream env vc ac
    (endpoint_at env (rand_pos w))
    (endpoint_at env (S (rand_pos w + 16 + 14))) = Ok st ->
  exists dl t tr,
    state_of (Start env fuel (c, w)) = waiting env c w st dl t /\
    trace_of (Start env fuel (c, w)) = streaming_trace env w ++ tr.
Proof.
  intros Hs Ho. rewrite (Start_streaming env fuel c w vc ac Hs), Ho.
  unfold wired_state.
  destruct (await_waiting env c w st (deliveries env)
              (now w + ConnDeadline env)%Z (now w))
    as (r & dl' & t' & tr & -> & _).
  exists dl', t', tr. destruct r; split; reflexivity.
Qed.

(** C10. Whenever [Start] reaches session setup, whatever kinds of track
    the receivers hold, it allocates two new sessions, one for video and
    one for audio, each with an endpoint of its own drawn from the random
    source (a 16-byte master key, a 14-byte salt and a 32-bit SSRC), and
    keeps them on the client; and when the remote open succeeds, both are
    added to the transport registry. *)
Theorem Start_creates_and_registers_both_sessions env fuel c w vc ac :
  reaches_setup env c = Some (vc, ac) ->
  heap w !! video_ptr w = None /\
  heap w !! audio_ptr env w = None /\
  video_ptr w <> audio_ptr env w /\
  videoSession (client_of (Start env fuel (c, w))) = Some (video_ptr w) /\
  audioSession (client_of (Start env fuel (c, w))) = Some (audio_ptr env w) /\
  (exists vs as_,
     heap (world_of (Start env fuel (c, w))) !! video_ptr w = Some vs /\
     heap (world_of (Start env fuel (c, w))) !! audio_ptr env w = Some as_ /\
     Local vs = endpoint_at env (rand_pos w) /\
     Local as_ = endpoint_at env (S (rand_pos w + 16 + 14)) /\
     length (MasterKey (Local vs)) = 16 /\
     length (MasterSalt (Local vs)) = 14 /\
     (0 <= SSRC (Local vs) < 2 ^ 32)%Z /\
     length (MasterKey (Local as_)) = 16 /\
     length (MasterSalt (Local as_)) = 14 /\
     (0 <= SSRC (Local as_) < 2 ^ 32)%Z) /\
  (forall st,
     camera_NewStream env vc ac
       (endpoint_at env (rand_pos w))
       (endpoint_at env (S (rand_pos w + 16 + 14))) = Ok st ->
     registry (world_of (Start env fuel (c, w))) =
       (registry w ++ [video_ptr w]) ++ [audio_ptr env w] /\
     video_ptr w ∈ registry (world_of (Start env fuel (c, w))) /\
     audio_ptr env w ∈ registry (world_of (Start env fuel (c, w))) /\
     EvAddSession (video_ptr w) ∈ trace_of (Start env fuel (c, w)) /\
     EvAddSession (audio_ptr env w) ∈ trace_of (Start env fuel (c, w))).
Proof.
  intros Hs.
  split; [apply lookup_ge_None_2; unfold video_ptr; lia|].
  split; [apply lookup_ge_None_2; rewrite audio_ptr_next; unfold video_ptr; lia|].
  split; [rewrite audio_ptr_next; lia|].
  destruct (camera_NewStream env vc ac (endpoint_at env (rand_pos w))
              (endpoint_at env (S (rand_pos w + 16 + 14)))) as [st|e] eqn:Ho.
  - destruct (Start_streaming_end env fuel c w vc ac st Hs Ho)
      as (dl & t & tr & Hst & Htr).
    unfold client_of, world_of. unfold state_of in Hst. rewrite Hst, Htr.
    cbn [fst snd waiting set_stream setup_client set_audioSession
           set_videoSession videoSession audioSession heap registry].
    split; [reflexivity|]. split; [reflexivity|].
    split.
    { eexists _, _.
      split; [exact (wired_heap_lookup env c w VideoRole)|].
      split; [exact (wired_heap_lookup env c w AudioRole)|].
      cbn [Local].
      pose proof (endpoint_at_shape env (rand_pos w)).
      pose proof (endpoint_at_shape env (S (rand_pos w + 16 + 14))).
      intuition. }
    intros st' [= <-].
    split; [reflexivity|].
    split; [exact (registered_both env w (registry w) VideoRole)|].
    split; [exact (registered_both env w (registry w) AudioRole)|].
    unfold streaming_trace, setup_trace.
    split; rewrite !elem_of_app, !elem_of_cons; auto 10.
  - rewrite (Start_streaming env fuel c w vc ac Hs), Ho.
    unfold client_of, world_of.
    cbn [fst snd set_stream setup_client set_audioSession set_videoSession
           videoSession audioSession setup_world heap].
    split; [reflexivity|]. split; [reflexivity|].
    split; [|intros st; discriminate].
    exists (video_fresh env w), (audio_fresh env w).
    split; [apply lookup_snoc2_l|].
    split; [apply lookup_snoc2_r|].
    unfold video_fresh, audio_fresh, fresh_session. cbn [Local].
    pose proof (endpoint_at_shape env (rand_pos w)).
    pose proof (endpoint_at_shape env (S (rand_pos w + 16 + 14))).
    intuition.
Qed.

Lemma Start_creates_and_registers_both_sessions_witness :
  trackByKind audio_only KindVideo = None /\
  videoSession (client_of (Start camera 0 (audio_only, world0))) = Some 0 /\
  0 ∈ registry (world_of (Start camera 0 (audio_only, world0))).
Proof.
  destruct (Start_creates_and_registers_both_sessions camera 0 audio_only world0
              h264 opus eq_refl) as (_ & _ & _ & Hv & _ & _ & Hreg).
  split; [reflexivity|]. split; [exact Hv|].
  destruct (Hreg {| stream_id := 1 |} eq_refl) as (_ & Hin & _).
  exact Hin.
Defined.

(** C5. In every execution of [Start] a session is added to the registry
    only after [camera.NewStream] has succeeded.  When the accessory
    declines, [Start] returns the accessory's error, nothing has been
    added, the two sessions built locally are not in the registry, and a
    following [Stop] leaves the registry exactly as it was (provided the
    registry held only sessions that existed). *)
Theorem Start_registers_only_after_open env fuel c w :
  (forall pre p post,
     trace_of (Start env fuel (c, w)) = pre ++ EvAddSession p :: post ->
     exists v a, EvNewStream v a None ∈ pre) /\
  (forall vc ac e,
     reaches_setup env c = Some (vc, ac) ->
     camera_NewStream env vc ac
       (endpoint_at env (rand_pos w))
       (endpoint_at env (S (rand_pos w + 16 + 14))) = Err e ->
     Forall (fun p => p < length (heap w)) (registry w) ->
     result_of (Start env fuel (c, w)) = Val (Some e) /\
     (forall p, EvAddSession p ∉ trace_of (Start env fuel (c, w))) /\
     registry (world_of (Start env fuel (c, w))) = registry w /\
     videoSession (client_of (Start env fuel (c, w))) = Some (video_ptr w) /\
     audioSession (client_of (Start env fuel (c, w))) = Some (audio_ptr env w) /\
     (video_ptr w ∉ registry w) /\
     (audio_ptr env w ∉ registry w) /\
     forall env', registry (world_of (Stop env' (state_of (Start env fuel (c, w)))))
                  = registry w).
Proof.
  split.
  - intros pre p post Htr.
    pose proof (Start_trace_monitored env fuel c w) as Hm. rewrite Htr in Hm.
    destruct (registered_after_open_sound _ _ _ _ Hm) as [Hb|Hex];
      [discriminate|exact Hex].
  - intros vc ac e Hs Ho Hwf.
    rewrite (Start_streaming env fuel c w vc ac Hs), Ho.
    unfold result_of, client_of, world_of, state_of, trace_of.
    cbn [fst snd].
    assert (Hv : video_ptr w ∉ registry w).
    { intros Hin. rewrite Forall_forall in Hwf.
      specialize (Hwf _ Hin).
      unfold video_ptr in Hwf. lia. }
    assert (Ha : audio_ptr env w ∉ registry w).
    { intros Hin. rewrite Forall_forall in Hwf.
      specialize (Hwf _ Hin).
      rewrite audio_ptr_next in Hwf. unfold video_ptr in Hwf. lia. }
    repeat split; try assumption.
    + intros p Hin. unfold setup_trace in Hin.
      rewrite !elem_of_cons in Hin.
      destruct Hin as [Hin|[Hin|[Hin|Hin]]]; try discriminate.
      inversion Hin.
    + intros env'.
      pose proof (Stop_registry env' (set_stream None (setup_client env c w))
                    (setup_world env w)) as HS.
      unfold world_of in HS. rewrite HS.
      cbn [set_stream setup_client set_audioSession set_videoSession
             videoSession audioSession setup_world registry].
      rewrite (filter_all (fun x => x <> video_ptr w) (registry w)).
      * apply filter_all. apply Forall_forall. intros x Hx ->.
        apply Ha. exact Hx.
      * apply Forall_forall. intros x Hx ->.
        apply Hv. exact Hx.
Qed.

Lemma Start_registers_only_after_open_witness :
  result_of (Start camera_declining 0 (both_tracks, world0))
    = Val (Some "hap: wrong response status") /\
  registry (world_of (Stop camera_declining
                        (state_of (Start camera_declining 0 (both_tracks, world0)))))
    = [].
Proof.
  destruct (Start_registers_only_after_open camera_declining 0 both_tracks world0)
    as [_ H].
  destruct (H h264 opus "hap: wrong response status" eq_refl eq_refl
              (List.Forall_nil _)) as (Hr & _ & _ & _ & _ & _ & _ & Hstop).
  split; [exact Hr | exact (Hstop camera_declining)].
Defined.

(** C2, where the code departs from it: a receiver slice that is empty
    but not nil passes the [c.Receivers == nil] test, and [Start] then
    panics on [c.Receivers[0]] instead of returning the error. *)
Theorem Start_empty_receivers_panics env fuel c w :
  Start env fuel (with_Receivers (Some []) c, w) =
    (Panic index_out_of_range, (with_Receivers (Some []) c, w), []).
Proof. reflexivity. Qed.

(** With a nil receiver slice [Start] returns the error, creates no
    session and registers nothing. *)
Lemma Start_nil_receivers env fuel c w :
  Receivers c = None ->
  Start env fuel (c, w) = (Val (Some producer_without_tracks), (c, w), []).
Proof.
  intros H. unfold Start. unfold_M. simpl. rewrite H. reflexivity.
Qed.

(** C1, where the code departs from it: on a client whose video session
    pointer is nil, as on every client that has not been through [Start],
    [MarshalJSON] dereferences nil and panics. *)
Theorem MarshalJSON_nil_session_panics env c w :
  MarshalJSON env (set_videoSession None c, w) =
    (Panic nil_dereference, (set_videoSession None c, w), []).
Proof. reflexivity. Qed.

Lemma MarshalJSON_nil_audio_session_panics env c w v vs :
  videoSession c = Some v -> heap w !! v = Some vs -> audioSession c = None ->
  result_of (MarshalJSON env (c, w)) = Panic nil_dereference.
Proof.
  intros Hv Hh Ha. unfold MarshalJSON, readRecv. unfold_M. simpl.
  rewrite Hv. simpl. rewrite Hh. simpl. rewrite Ha. reflexivity.
Qed.

(** With both sessions present the reported count is the sum of the two
    counters, in the arithmetic of a Go [int]. *)
Lemma MarshalJSON_sum env c w v a vs as_ :
  videoSession c = Some v -> heap w !! v = Some vs ->
  audioSession c = Some a -> heap w !! a = Some as_ ->
  MarshalJSON env (c, w) =
    (Val {| InfoType := "HomeKit active producer";
            InfoURL := hap_URL env;
            InfoMedias := Medias c;
            InfoReceivers := Receivers c;
            InfoRecv := int64 (Recv vs + Recv as_) |},
     (c, w), []).
Proof.
  intros Hv Hh Ha Hh'. unfold MarshalJSON, readRecv. unfold_M. simpl.
  rewrite Hv. simpl. rewrite Hh. simpl. rewrite Ha. simpl. rewrite Hh'.
  reflexivity.
Qed.

End SessionProperties.

(** ** The still-image polling loop *)

Section MJPEGProperties.
Import Sessions Bridge Homekit Run Scenario.

Lemma mjpeg_rounds_S env receiver i n :
  mjpeg_rounds env receiver i (S n) =
    [EvGetImage 1920 1080;
     EvWriteRTP (rid receiver)
       {| Timestamp := uint32 (Now90000 env i); Payload := image env i |}]
    ++ mjpeg_rounds env receiver (S i) n.
Proof. reflexivity. Qed.

(** The loop stops at the first failed request, having written one packet
    per image fetched before, and makes no further request. *)
Lemma mjpegLoop_fails env receiver s e n : forall i fuel,
  (forall j, i <= j < i + n -> exists b, hap_GetImage env j = Ok b) ->
  hap_GetImage env (i + n) = Err e ->
  n < fuel ->
  mjpegLoop env receiver i fuel s =
    (Val (Some e), s, mjpeg_rounds env receiver i n ++ [EvGetImage 1920 1080]).
Proof.
  induction n as [|n IH]; intros i fuel Hok Herr Hfuel;
    (destruct fuel as [|fuel]; [lia|]).
  - rewrite Nat.add_0_r in Herr. simpl. unfold_M. simpl. rewrite Herr.
    reflexivity.
  - destruct (Hok i ltac:(lia)) as [b Hb].
    rewrite mjpeg_rounds_S. unfold image. simpl mjpegLoop.
    unfold WriteRTP. unfold_M. simpl. rewrite Hb.
    rewrite (IH (S i) fuel); [reflexivity| |rewrite <- Herr; f_equal; lia|lia].
    intros j Hj. apply Hok. lia.
Qed.

(** As long as the requests succeed the loop goes on. *)
Lemma mjpegLoop_runs env receiver s fuel : forall i,
  (forall j, i <= j < i + fuel -> exists b, hap_GetImage env j = Ok b) ->
  mjpegLoop env receiver i fuel s =
    (OutOfFuel, s, mjpeg_rounds env receiver i fuel).
Proof.
  induction fuel as [|fuel IH]; intros i Hok; [reflexivity|].
  destruct (Hok i ltac:(lia)) as [b Hb].
  rewrite mjpeg_rounds_S. unfold image. simpl mjpegLoop.
  unfold WriteRTP. unfold_M. simpl. rewrite Hb.
  rewrite (IH (S i)); [reflexivity|].
  intros j Hj. apply Hok. lia.
Qed.

(** C8. When the first receiver's codec is the still-image one, [Start]
    runs the polling loop on that receiver: each image fetched is written
    to it as one RTP packet carrying the image and the current 90 kHz
    timestamp; at the first request that fails [Start] returns that
    error, having made no further request; and as long as the requests
    succeed [Start] does not return, however many rounds it is given. *)
Theorem Start_MJPEG env c w r0 rs :
  Receivers c = Some (r0 :: rs) ->
  Name (Codec_ r0) = CodecJPEG ->
  (forall n e fuel,
     (forall j, j < n -> exists b, hap_GetImage env j = Ok b) ->
     hap_GetImage env n = Err e ->
     n < fuel ->
     Start env fuel (c, w) =
       (Val (Some e), (c, w), mjpeg_rounds env r0 0 n ++ [EvGetImage 1920 1080])) /\
  (forall fuel,
     (forall j, j < fuel -> exists b, hap_GetImage env j = Ok b) ->
     Start env fuel (c, w) = (OutOfFuel, (c, w), mjpeg_rounds env r0 0 fuel)).
Proof.
  intros HR HJ.
  assert (HS : forall fuel,
             Start env fuel (c, w) = mjpegLoop env r0 0 fuel (c, w)).
  { intros fuel. unfold Start, startMJPEG, index0, elems. unfold_M. simpl.
    rewrite HR. simpl. rewrite HJ. simpl. rewrite HR. simpl.
    destruct (mjpegLoop env r0 0 fuel (c, w)) as [[[r|m|] s'] t]; reflexivity. }
  split.
  - intros n e fuel Hok Herr Hfuel. rewrite HS.
    apply mjpegLoop_fails; [|exact Herr|exact Hfuel].
    intros j Hj. apply Hok. lia.
  - intros fuel Hok. rewrite HS. apply mjpegLoop_runs.
    intros j Hj. apply Hok. lia.
Qed.

Lemma Start_MJPEG_witness :
  Start camera 5 (still_image, world0) =
    (Val (Some "EOF"), (still_image, world0),
     mjpeg_rounds camera jpegReceiver 0 2 ++ [EvGetImage 1920 1080]) /\
  Start camera 2 (still_image, world0) =
    (OutOfFuel, (still_image, world0), mjpeg_rounds camera jpegReceiver 0 2).
Proof.
  destruct (Start_MJPEG camera still_image world0 jpegReceiver [] eq_refl eq_refl)
    as [Hfail Hrun].
  split.
  - apply (Hfail 2 "EOF" 5); [|reflexivity|lia].
    intros j Hj. exists [Byte.xff; Byte.xd8].
    destruct j as [|[|j]]; [reflexivity|reflexivity|lia].
  - apply (Hrun 2).
    intros j Hj. exists [Byte.xff; Byte.xd8].
    destruct j as [|[|j]]; [reflexivity|reflexivity|lia].
Defined.

End MJPEGProperties.

(** ** The audio pacer *)

Section PacerProperties.
Import Pacer.
Local Open Scope Z_scope.

Lemma int64_small x : minInt64 <= x <= maxInt64 -> int64 x = x.
Proof.
  unfold int64, minInt64, maxInt64. intros H.
  rewrite Z.mod_small; lia.
Qed.

Lemma int64_le x : 0 <= x -> int64 x <= x.
Proof.
  unfold int64. intros H.
  pose proof (Z.mod_le (x + 2 ^ 63) (2 ^ 64) ltac:(lia) ltac:(lia)). lia.
Qed.

Lemma int64_add_l a b : int64 (int64 a + b) = int64 (a + b).
Proof.
  unfold int64.
  replace ((a + 2 ^ 63) mod 2 ^ 64 - 2 ^ 63 + b + 2 ^ 63)
    with ((a + 2 ^ 63) mod 2 ^ 64 + b) by lia.
  rewrite Zplus_mod_idemp_l. f_equal. f_equal. lia.
Qed.

Lemma uint32_int64 x : uint32 (int64 x) = uint32 x.
Proof.
  unfold uint32, int64.
  pose proof (Z.div_mod (x + 2 ^ 63) (2 ^ 64) ltac:(lia)) as H.
  set (q := (x + 2 ^ 63) / 2 ^ 64) in *.
  set (r := (x + 2 ^ 63) mod 2 ^ 64) in *.
  replace (r - 2 ^ 63) with (x + (- q * 2 ^ 32) * 2 ^ 32) by lia.
  apply Z_mod_plus_full.
Qed.

(** The computed elapsed sample time never exceeds the true one. *)
Lemma elapsed_bound now_ first s :
  first <= now_ -> 0 < s ->
  s * Second > (now_ - first) * sampleRate ->
  s > elapsed now_ first.
Proof.
  unfold elapsed, Sub, Second, sampleRate. intros Hle Hs Hgt.
  set (d := Z.max minInt64 (Z.min maxInt64 (now_ - first))).
  assert (Hd : 0 <= d <= now_ - first) by (unfold d, minInt64, maxInt64; lia).
  pose proof (int64_le (d * 16000) ltac:(lia)) as Hi.
  destruct (Z_lt_le_dec (int64 (d * 16000)) 0) as [Hneg|Hpos].
  - pose proof (Z.quot_opp_l (- int64 (d * 16000)) 1000000000 ltac:(lia)) as Hq.
    rewrite Z.opp_involutive in Hq.
    pose proof (Z.quot_pos (- int64 (d * 16000)) 1000000000 ltac:(lia) ltac:(lia)).
    lia.
  - rewrite Z.quot_div_nonneg by lia.
    apply Z.lt_gt. apply Z.div_lt_upper_bound; lia.
Qed.

(** One call, spelled out. *)
Lemma limitter_first st now_ p :
  send st = 0 ->
  limitter st now_ p =
    ({| send := 480; firstTime := now_ |}, Some (set_Timestamp 480 p)).
Proof. unfold limitter. intros ->. reflexivity. Qed.

Lemma limitter_cases st now_ p :
  limitter st now_ p = (st, None) \/
  exists first,
    limitter st now_ p =
      ({| send := int64 (send st + sampleSize); firstTime := first |},
       Some (set_Timestamp (uint32 (int64 (send st + sampleSize))) p)).
Proof.
  unfold limitter.
  destruct (negb (send st =? 0)).
  - destruct (int64 (send st + sampleSize) >? elapsed now_ (firstTime st)).
    + left. reflexivity.
    + right. eexists. reflexivity.
  - right. eexists. reflexivity.
Qed.

Lemma feed_app st a : forall b,
  feed st (a ++ b) =
    (fst (feed st a) ++ fst (feed (snd (feed st a)) b),
     snd (feed (snd (feed st a)) b)).
Proof.
  revert st. induction a as [|[t p] a IH]; intros st b; simpl.
  - destruct (feed st b); reflexivity.
  - destruct (limitter st t p) as [st' [out|]]; rewrite IH; reflexivity.
Qed.

(** The [i]-th packet passed on carries [480 * (i + 1)], cut to 32 bits. *)
Lemma feed_stamps input : forall st k i p,
  send st = int64 (sampleSize * k) ->
  fst (feed st input) !! i = Some p ->
  Timestamp p = uint32 (sampleSize * (k + 1 + Z.of_nat i)).
Proof.
  induction input as [|[t q] input IH]; intros st k i p Hk Hi; simpl in Hi.
  - rewrite lookup_nil in Hi. discriminate.
  - destruct (limitter_cases st t q) as [Hd|[first Hf]].
    + rewrite Hd in Hi. eapply IH; eauto.
    + rewrite Hf in Hi. simpl in Hi.
      assert (Hs : int64 (send st + sampleSize) = int64 (sampleSize * (k + 1))).
      { rewrite Hk, int64_add_l. f_equal. lia. }
      destruct i as [|i]; simpl in Hi.
      * injection Hi as <-. simpl. rewrite Hs, uint32_int64. f_equal. lia.
      * rewrite (IH {| send := int64 (send st + sampleSize); firstTime := first |}
                   (k + 1) i p Hs Hi).
        f_equal. lia.
Qed.

(** After the first packet, and while the running total fits an int64,
    [send] counts 480 per packet passed on and [firstTime] stays. *)
Lemma feed_state input : forall st,
  0 < send st ->
  send st + sampleSize * Z.of_nat (length input) <= maxInt64 ->
  firstTime (snd (feed st input)) = firstTime st /\
  send (snd (feed st input)) =
    send st + sampleSize * Z.of_nat (length (fst (feed st input))) /\
  (length (fst (feed st input)) <= length input)%nat.
Proof.
  unfold sampleSize, maxInt64.
  induction input as [|[t q] input IH]; intros st Hpos Hfit; simpl.
  - repeat split; lia.
  - simpl length in Hfit.
    unfold limitter.
    replace (send st =? 0) with false by (symmetry; apply Z.eqb_neq; lia).
    simpl negb. cbv iota.
    rewrite (int64_small (send st + sampleSize))
      by (unfold sampleSize, minInt64, maxInt64; lia).
    destruct (send st + sampleSize >? elapsed t (firstTime st)).
    + assert (Hfit' : send st + 480 * Z.of_nat (length input) <= 2 ^ 63 - 1)
        by lia.
      destruct (IH st Hpos Hfit') as (Hf & Hs & Hl).
      cbv beta iota zeta. split; [exact Hf|]. split; [exact Hs|].
      apply Nat.le_le_succ_r. exact Hl.
    + cbv beta iota zeta. cbn [fst snd length].
      set (st' := {| send := send st + sampleSize; firstTime := firstTime st |}).
      destruct (IH st') as (Hf & Hs & Hl);
        [unfold st', sampleSize; simpl; lia
        |unfold st', sampleSize; simpl; lia|].
      rewrite Hf, Hs. subst st'. unfold sampleSize in *.
      cbn [send firstTime] in *.
      split; [reflexivity|]. split; lia.
Qed.

Lemma map_lookup_Some {A B} (f : A -> B) (l : list A) : forall i b,
  map f l !! i = Some b -> exists a, l !! i = Some a /\ b = f a.
Proof.
  induction l as [|x l IH]; intros i b H; simpl in H.
  - rewrite lookup_nil in H. discriminate.
  - destruct i as [|i]; simpl in *.
    + injection H as <-. eexists; split; reflexivity.
    + apply IH. exact H.
Qed.

Lemma map_seq_lookup {B} (f : nat -> B) n : forall k i,
  (i < n)%nat -> map f (seq k n) !! i = Some (f (k + i)%nat).
Proof.
  induction n as [|n IH]; intros k i Hi; [lia|].
  destruct i as [|i]; simpl.
  - rewrite Nat.add_0_r. reflexivity.
  - rewrite IH by lia. do 2 f_equal. lia.
Qed.

Lemma uint32_add_l a b : uint32 (uint32 a + b) = uint32 (a + b).
Proof. unfold uint32. apply Zplus_mod_idemp_l. Qed.

Lemma elapsed_steady x :
  0 <= x <= 9000000 -> elapsed (x * 60000000) 0 = 960 * x.
Proof.
  intros H. unfold elapsed, Sub, sampleRate, Second, minInt64, maxInt64.
  rewrite Z.sub_0_r, Z.min_r, Z.max_r by lia.
  rewrite int64_small by (unfold minInt64, maxInt64; lia).
  replace (x * 60000000 * 16000) with (960 * x * 1000000000) by lia.
  apply Z.quot_mul. lia.
Qed.

(** Packets 60 ms apart are all passed on. *)
Lemma feed_steady m : forall k,
  (1 <= k)%nat -> Z.of_nat k + Z.of_nat m <= 9000000 ->
  feed {| send := 480 * Z.of_nat k; firstTime := 0 |} (steady_from k m) =
    (map (fun i => set_Timestamp (uint32 (480 * (Z.of_nat i + 1))) silence)
       (seq k m),
     {| send := 480 * Z.of_nat (k + m); firstTime := 0 |}).
Proof.
  unfold steady_from.
  induction m as [|m IH]; intros k Hk Hb.
  - simpl. rewrite Nat.add_0_r. reflexivity.
  - cbn [seq map feed]. unfold limitter. cbn [send firstTime].
    replace (480 * Z.of_nat k =? 0) with false by (symmetry; apply Z.eqb_neq; lia).
    cbn [negb]. unfold sampleSize.
    rewrite int64_small by (unfold minInt64, maxInt64; lia).
    rewrite elapsed_steady by lia.
    replace (480 * Z.of_nat k + 480 >? 960 * Z.of_nat k) with false
      by (symmetry; rewrite Z.gtb_ltb; apply Z.ltb_ge; lia).
    replace (480 * Z.of_nat k + 480) with (480 * Z.of_nat (S k)) by lia.
    rewrite (IH (S k)) by lia.
    cbn [fst snd].
    replace (480 * Z.of_nat (S k)) with (480 * (Z.of_nat k + 1)) by lia.
    do 3 f_equal. lia.
Qed.

Lemma stamps_steady n i :
  Z.of_nat n <= 9000000 -> (i < n)%nat ->
  stamps (steady n) !! i = Some (uint32 (480 * (Z.of_nat i + 1))).
Proof.
  intros Hn Hi. unfold stamps, forwarded, steady.
  destruct n as [|n]; [lia|].
  assert (Hf : fst (feed init (steady_from 0 (S n))) =
               map (fun i => set_Timestamp (uint32 (480 * (Z.of_nat i + 1))) silence)
                 (seq 0 (S n))).
  { unfold steady_from. cbn [seq map feed].
    change (Z.of_nat 0 * 60000000) with 0.
    rewrite limitter_first by reflexivity.
    pose proof (feed_steady n 1 ltac:(lia) ltac:(lia)) as Hs.
    unfold steady_from in Hs. change (480 * Z.of_nat 1) with 480 in Hs.
    rewrite Hs. reflexivity. }
  rewrite Hf, map_map. rewrite map_seq_lookup by exact Hi. reflexivity.
Qed.

(** C7, as stated, fails: the timestamp is a 32-bit counter, so in a
    stream of 8947849 packets 60 ms apart, all of which are passed on, the
    last one is stamped 224 after 4294967040. *)
Lemma stamps_wrap_around : ~ (forall input, steps_of_480 (stamps input)).
Proof.
  intros H.
  assert (Hn : Z.of_nat (S (S (Z.to_nat 8947847))) <= 9000000) by lia.
  pose proof (stamps_steady _ (Z.to_nat 8947847) Hn ltac:(lia)) as Ha.
  pose proof (stamps_steady _ (S (Z.to_nat 8947847)) Hn ltac:(lia)) as Hb.
  specialize (H _ _ _ _ Ha Hb).
  rewrite Nat2Z.inj_succ, Z2Nat.id in H by lia.
  revert H. unfold sampleSize. vm_compute. discriminate.
Qed.

(** C7, amended. For every input stream: the first packet is passed on,
    stamped 480; the [i]-th packet passed on (counting from 0) is stamped
    [480 * (i + 1)] cut to 32 bits, so each stamp is the one before plus
    480 modulo [2 ^ 32], and exactly the one before plus 480 until the
    32-bit counter wraps; and, the clock being monotonic and the running
    total within an int64, every later packet for which the running total
    plus 480, taken as samples, exceeds the time elapsed since the first
    packet is dropped: the handler never sees it and the variables stay
    as they are. *)
Theorem limitter_paces (input : list (Z * Packet)) :
  (forall t0 p0 rest,
     input = (t0, p0) :: rest ->
     forwarded input =
       set_Timestamp 480 p0 :: fst (feed {| send := 480; firstTime := t0 |} rest)) /\
  (forall i p,
     forwarded input !! i = Some p ->
     Timestamp p = uint32 (sampleSize * (Z.of_nat i + 1))) /\
  (forall i a b,
     stamps input !! i = Some a -> stamps input !! S i = Some b ->
     b = uint32 (a + sampleSize)) /\
  (forall i a b,
     stamps input !! i = Some a -> stamps input !! S i = Some b ->
     sampleSize * (Z.of_nat i + 2) < 2 ^ 32 ->
     b = a + sampleSize) /\
  (forall t0 p0 pre t p post,
     input = ((t0, p0) :: pre) ++ (t, p) :: post ->
     sampleSize * (Z.of_nat (length pre) + 2) <= maxInt64 ->
     t0 <= t ->
     firstTime (snd (feed init ((t0, p0) :: pre))) = t0 /\
     send (snd (feed init ((t0, p0) :: pre))) =
       sampleSize * Z.of_nat (length (forwarded ((t0, p0) :: pre))) /\
     ((send (snd (feed init ((t0, p0) :: pre))) + sampleSize) * Second
        > (t - t0) * sampleRate ->
      limitter (snd (feed init ((t0, p0) :: pre))) t p =
        (snd (feed init ((t0, p0) :: pre)), None) /\
      forwarded input = forwarded (((t0, p0) :: pre) ++ post))).
Proof.
  assert (Hstamp : forall i a, stamps input !! i = Some a ->
                     a = uint32 (sampleSize * (Z.of_nat i + 1))).
  { intros i a Ha. unfold stamps in Ha.
    apply map_lookup_Some in Ha as (p & Hp & ->).
    rewrite (feed_stamps input init 0 i p eq_refl Hp). f_equal. lia. }
  split.
  { intros t0 p0 rest ->. unfold forwarded. cbn [feed].
    rewrite limitter_first by reflexivity. reflexivity. }
  split.
  { intros i p Hp. unfold forwarded in Hp.
    rewrite (feed_stamps input init 0 i p eq_refl Hp). f_equal. lia. }
  split.
  { intros i a b Ha Hb. rewrite (Hstamp _ _ Ha), (Hstamp _ _ Hb).
    rewrite uint32_add_l. f_equal. lia. }
  split.
  { intros i a b Ha Hb Hlt. rewrite (Hstamp _ _ Ha), (Hstamp _ _ Hb).
    unfold uint32, sampleSize in *. rewrite !Z.mod_small by lia. lia. }
  intros t0 p0 pre t p post -> Hfit Hle.
  unfold forwarded. cbn [feed].
  rewrite limitter_first by reflexivity. cbn [fst snd].
  set (st1 := {| send := 480; firstTime := t0 |}).
  destruct (feed_state pre st1) as (Hf & Hs & Hl);
    [reflexivity | unfold st1, sampleSize, maxInt64 in *; cbn [send]; lia |].
  cbn [send firstTime st1] in Hf, Hs.
  split; [exact Hf|].
  split.
  { rewrite Hs. cbn [length]. unfold sampleSize. lia. }
  intros Hgt.
  assert (Hdrop : limitter (snd (feed st1 pre)) t p = (snd (feed st1 pre), None)).
  { unfold limitter.
    replace (send (snd (feed st1 pre)) =? 0) with false
      by (symmetry; apply Z.eqb_neq; rewrite Hs; unfold sampleSize; lia).
    cbn [negb].
    rewrite int64_small
      by (rewrite Hs; unfold sampleSize, minInt64, maxInt64 in *; lia).
    rewrite Hf.
    pose proof (elapsed_bound t t0 (send (snd (feed st1 pre)) + sampleSize) Hle
                  ltac:(rewrite Hs; unfold sampleSize; lia) Hgt) as He.
    apply Z.gtb_gt in He. rewrite He. reflexivity. }
  split; [exact Hdrop|].
  cbn [app feed]. rewrite limitter_first by reflexivity. cbn [fst snd].
  fold st1. rewrite !feed_app. cbn [fst feed]. rewrite Hdrop. reflexivity.
Qed.

Lemma limitter_paces_witness :
  limitter (snd (feed init [(0, silence)])) 10000000 silence =
    (snd (feed init [(0, silence)]), None) /\
  forwarded [(0, silence); (10000000, silence); (60000000, silence)] =
    forwarded [(0, silence); (60000000, silence)].
Proof.
  destruct (limitter_paces [(0, silence); (10000000, silence); (60000000, silence)])
    as (_ & _ & _ & _ & Hdrop).
  destruct (Hdrop 0 silence [] 10000000 silence [(60000000, silence)] eq_refl
              ltac:(vm_compute; discriminate) ltac:(lia)) as (_ & _ & Hd).
  exact (Hd eq_refl).
Defined.

End PacerProperties.

(** * Further properties of the client *)

Section MoreNegotiation.
Import Negotiator Sessions Run Liveness Scenario.

(** X1. [trackByKind] returns the first receiver whose codec is of the
    kind asked for: every receiver before it is of another kind; and it
    returns nil exactly when no receiver is of that kind (in particular
    for a nil slice). *)
Theorem trackByKind_first c kind :
  (forall r, trackByKind c kind = Some r ->
     exists before after,
       elems (Receivers c) = before ++ r :: after /\
       Kind (Codec_ r) = kind /\
       Forall (fun x => Kind (Codec_ x) <> kind) before) /\
  (trackByKind c kind = None <->
     Forall (fun x => Kind (Codec_ x) <> kind) (elems (Receivers c))).
Proof.
  unfold trackByKind.
  induction (elems (Receivers c)) as [|x l [IH1 IH2]]; simpl.
  - split; [discriminate|]. split; auto.
  - destruct (String.eqb_spec (Kind (Codec_ x)) kind) as [He|Hne].
    + split.
      * intros r [= <-]. exists [], l. auto.
      * split; [discriminate|]. intros H. inversion H; subst. contradiction.
    + split.
      * intros r Hr. destruct (IH1 r Hr) as (before & after & -> & Hk & Hb).
        exists (x :: before), after. auto.
      * rewrite IH2. split; [auto|]. intros H. inversion H; subst. assumption.
Qed.

Lemma trackByKind_first_witness :
  exists before after,
    elems (Receivers both_tracks) = before ++ audioReceiver :: after /\
    Forall (fun x => Kind (Codec_ x) <> KindAudio) before.
Proof.
  destruct (trackByKind_first both_tracks KindAudio) as [H _].
  destruct (H audioReceiver eq_refl) as (before & after & He & _ & Hb).
  exists before, after. split; [exact He | exact Hb].
Defined.

(** X2. Whatever the accessory answers, one call of [GetMedias] does a
    beginning of the same five steps in the same order: description
    read, video lookup, video decode, audio lookup, audio decode.  So
    nothing is read twice and the audio capability is never looked up
    before the video capability has decoded. *)
Theorem GetMedias_steps_in_order env c w :
  trace_of (GetMedias env (c, w)) `prefix_of` negotiation_steps.
Proof.
  destruct (Medias c) as [ms|] eqn:E.
  - rewrite (GetMedias_cached _ _ _ _ E). apply prefix_nil.
  - rewrite (GetMedias_uncached _ _ _ E). unfold negotiation_steps.
    repeat match goal with
           | |- context [match ?x with _ => _ end] => destruct x
           end; simpl;
      repeat apply prefix_cons; apply prefix_nil.
Qed.

(** X3. When a first call of [GetMedias] succeeds, the list it returns and
    caches is made of exactly two medias, the video one then the audio
    one, converted from the descriptors that are now on the client;
    receivers, sessions, stream handle and the world are untouched. *)
Theorem GetMedias_success env c w ms c' w' tr :
  Medias c = None ->
  GetMedias env (c, w) = (Val (Some ms), (c', w'), tr) ->
  ms = [videoToMedia env (VCodecs (videoConfig c'));
        audioToMedia env (ACodecs (audioConfig c'))] /\
  Medias c' = Some ms /\
  Receivers c' = Receivers c /\
  videoSession c' = videoSession c /\
  audioSession c' = audioSession c /\
  stream c' = stream c /\
  w' = w /\
  tr = negotiation_steps.
Proof.
  intros E H. rewrite (GetMedias_uncached _ _ _ E) in H.
  repeat match type of H with
         | context [match ?x with _ => _ end] => destruct x
         end; simpl in H; try discriminate.
  injection H as <- <- <- <-. simpl. repeat split; reflexivity.
Qed.

Lemma GetMedias_success_witness :
  Medias negotiated =
    Some [videoToMedia camera [h264]; audioToMedia camera [opus]].
Proof.
  destruct (GetMedias_success camera dialed world0
              [videoToMedia camera [h264]; audioToMedia camera [opus]]
              negotiated world0 negotiation_steps eq_refl eq_refl)
    as (_ & Hm & _).
  exact Hm.
Defined.

End MoreNegotiation.

Section MoreStart.
Import Sessions Bridge Homekit Run Liveness Scenario Scenario2.

Lemma mjpegLoop_events env receiver fuel : forall i s,
  forallb (is_mjpeg_event receiver) (trace_of (mjpegLoop env receiver i fuel s)) = true.
Proof.
  induction fuel as [|fuel IH]; intros i s; [reflexivity|].
  simpl. unfold WriteRTP. unfold_M. simpl.
  destruct (hap_GetImage env i) as [b|e]; simpl; [|reflexivity].
  specialize (IH (S i) s).
  destruct (mjpegLoop env receiver (S i) fuel s) as [[r s'] t]. simpl in *.
  rewrite Nat.eqb_refl. exact IH.
Qed.

Lemma await_events env c w st ds : forall dl t,
  forallb is_bridge_event (trace_of (await env ds (waiting env c w st dl t))) = true.
Proof.
  induction ds as [|d ds IH]; intros dl t; simpl; [reflexivity|].
  unfold bind at 1. unfold getWorld at 1. cbn [fst snd waiting deadline].
  destruct (dl <=? at_time d)%Z; [reflexivity|].
  unfold bind at 1. rewrite deliver_waiting.
  destruct (installed c (to d)) as [h|].
  - rewrite call_waiting. destruct h as [[track|]|track].
    + specialize (IH (at_time d + ConnDeadline env)%Z (at_time d)).
      destruct (await env ds _) as [[r s'] tr]. simpl in *. exact IH.
    + reflexivity.
    + specialize (IH dl (at_time d)).
      destruct (await env ds _) as [[r s'] tr]. simpl in *. exact IH.
  - specialize (IH dl (at_time d)).
    destruct (await env ds _) as [[r s'] tr]. simpl in *. exact IH.
Qed.

Lemma after_await_trace pre r :
  trace_of (after_await pre r) = pre ++ trace_of r.
Proof. destruct r as [[[u|m|] s] t]; reflexivity. Qed.

Lemma forallb_weaken {A} (P Q : A -> bool) l :
  (forall x, P x = true -> Q x = true) ->
  forallb P l = true -> forallb Q l = true.
Proof.
  intros HPQ. induction l as [|x l IH]; simpl; [auto|].
  intros H. apply andb_prop in H as [Hx Hl].
  rewrite (HPQ _ Hx), (IH Hl). reflexivity.
Qed.

Local Arguments seq : simpl never.
Local Arguments map : simpl never.

(** The paths on which [Start], on a first receiver that is not a
    still-image one, stops before session setup do nothing at all. *)
Lemma Start_short_streaming env fuel c w r0 rs :
  Receivers c = Some (r0 :: rs) ->
  String.eqb (Name (Codec_ r0)) CodecJPEG = false ->
  reaches_setup env c = None ->
  trace_of (Start env fuel (c, w)) = [].
Proof.
  unfold reaches_setup. intros HR HJ H. rewrite HR, HJ in H.
  unfold_Start. simpl. rewrite HR. simpl. rewrite HJ.
  destruct (VCodecs (videoConfig c)) as [|v0 vl] eqn:HV; simpl;
    try reflexivity.
  destruct (trackToVideo env (trackByKind c KindVideo) v0) as [vc'| |] eqn:HtV;
    simpl; try reflexivity.
  destruct (ACodecs (audioConfig c)) as [|a0 al] eqn:HA; simpl;
    try reflexivity.
  destruct (trackToAudio env (trackByKind c KindAudio) a0) as [ac'| |] eqn:HtA;
    simpl; try reflexivity.
  discriminate.
Qed.

(** X4. The first receiver alone decides the mode.  When its codec is the
    still-image one, [Start] only requests images and writes to that
    receiver: it creates no session, opens no stream, registers nothing
    and leaves client and world as they are, whatever the other
    receivers are.  When it is any other codec, [Start] never requests an
    image, even if a later receiver is a still-image one. *)
Theorem Start_mode_by_first_receiver env fuel c w r0 rs :
  Receivers c = Some (r0 :: rs) ->
  (Name (Codec_ r0) = CodecJPEG ->
     state_of (Start env fuel (c, w)) = (c, w) /\
     forallb (is_mjpeg_event r0) (trace_of (Start env fuel (c, w))) = true) /\
  (Name (Codec_ r0) <> CodecJPEG ->
     forallb (fun e => negb (is_GetImage e)) (trace_of (Start env fuel (c, w))) = true).
Proof.
  intros HR. split.
  - intros HJ.
    assert (HS : Start env fuel (c, w) = mjpegLoop env r0 0 fuel (c, w)).
    { unfold Start, startMJPEG, index0, elems. unfold_M. simpl.
      rewrite HR. simpl. rewrite HJ. simpl. rewrite HR. simpl.
      destruct (mjpegLoop env r0 0 fuel (c, w)) as [[[r|m|] s'] t]; reflexivity. }
    rewrite HS. split; [apply mjpegLoop_quiet | apply mjpegLoop_events].
  - intros HJ. apply String.eqb_neq in HJ.
    destruct (reaches_setup env c) as [[vc ac]|] eqn:Hs.
    + rewrite (Start_streaming env fuel c w vc ac Hs).
      destruct (camera_NewStream _ _ _ _ _) as [st|e]; [|reflexivity].
      rewrite after_await_trace. unfold wired_state.
      rewrite forallb_app. apply andb_true_intro. split; [reflexivity|].
      apply (forallb_weaken is_bridge_event); [|apply await_events].
      intros [] H; try discriminate; reflexivity.
    + rewrite (Start_short_streaming env fuel c w r0 rs HR HJ Hs). reflexivity.
Qed.

Lemma Start_mode_by_first_receiver_witness :
  state_of (Start camera 5 (still_image, world0)) = (still_image, world0) /\
  forallb (fun e => negb (is_GetImage e))
    (trace_of (Start camera 5
                 (with_Receivers (Some [audioReceiver; jpegReceiver]) negotiated,
                  world0))) = true.
Proof.
  split.
  - destruct (Start_mode_by_first_receiver camera 5 still_image world0
                jpegReceiver [] eq_refl) as [H _].
    exact (proj1 (H eq_refl)).
  - destruct (Start_mode_by_first_receiver camera 5
                (with_Receivers (Some [audioReceiver; jpegReceiver]) negotiated)
                world0 audioReceiver [jpegReceiver] eq_refl) as [_ H].
    apply H. discriminate.
Defined.

(** X5. [Start] on a client that holds tracks but no decoded descriptor
    for video, or for audio, panics on [Codecs[0]] before any session is
    created: client and world are as before and nothing has happened.
    This is the case before [GetMedias] has succeeded, also after a
    [GetMedias] that decoded the video capability only. *)
Theorem Start_without_descriptors_panics env fuel c w r0 rs :
  Receivers c = Some (r0 :: rs) ->
  Name (Codec_ r0) <> CodecJPEG ->
  (VCodecs (videoConfig c) = [] \/
   (ACodecs (audioConfig c) = [] /\
    exists video0 rest videoCodec,
      VCodecs (videoConfig c) = video0 :: rest /\
      trackToVideo env (trackByKind c KindVideo) video0 = Val videoCodec)) ->
  Start env fuel (c, w) = (Panic index_out_of_range, (c, w), []).
Proof.
  intros HR HJ H. apply String.eqb_neq in HJ.
  unfold_Start. simpl. rewrite HR. simpl. rewrite HJ.
  destruct H as [HV|(HA & v0 & vl & vc & HV & HtV)].
  - rewrite HV. reflexivity.
  - rewrite HV. simpl. rewrite HtV, HA. reflexivity.
Qed.

Lemma Start_without_descriptors_panics_witness :
  result_of
    (Start camera 0
       (with_Receivers (Some [videoReceiver])
          (client_of (Negotiator.GetMedias camera_without_audio (dialed, world0))),
        world0))
  = Panic index_out_of_range.
Proof.
  rewrite (Start_without_descriptors_panics camera 0
             (with_Receivers (Some [videoReceiver])
                (client_of (Negotiator.GetMedias camera_without_audio (dialed, world0))))
             world0 videoReceiver []); [reflexivity|reflexivity|discriminate|].
  right. split; [reflexivity|].
  exists h264, [], h264. split; reflexivity.
Defined.

End MoreStart.

Section MoreBridge.
Import Sessions Bridge Homekit Run Liveness Scenario Scenario2.

(** The handler [Start] installs on a session whose kind has a track. *)
Lemma installed_tracked c r track :
  track_for c r = Some track ->
  installed c r =
    Some (if carries_liveness c r then ResetThenWrite (Some track)
          else WriteTo track).
Proof.
  unfold track_for, kind_of, installed, carries_liveness.
  destruct r; destruct (trackByKind c KindVideo) as [vt|] eqn:HV; intros H.
  - injection H as <-. reflexivity.
  - discriminate.
  - rewrite H. reflexivity.
  - rewrite H. reflexivity.
Qed.

(** The wait, when every packet is for a session whose kind has a track. *)
Lemma await_tracked env c w st ds :
  Forall (fun d => is_Some (track_for c (to d))) ds ->
  forall dl t,
    exists tr,
      await env ds (waiting env c w st dl t) =
        (Val tt,
         waiting env c w st
           (fire_time_by (carries_liveness c) (ConnDeadline env) dl ds)
           (fire_time_by (carries_liveness c) (ConnDeadline env) dl ds),
         tr) /\
      written tr =
        flat_map (bridged c) (handled (carries_liveness c) (ConnDeadline env) dl ds).
Proof.
  induction 1 as [|d ds [track Hd] Hds IH]; intros dl t; simpl.
  - eexists. split; reflexivity.
  - unfold bind at 1. unfold getWorld at 1. cbn [fst snd waiting deadline].
    destruct (dl <=? at_time d)%Z.
    + eexists. split; reflexivity.
    + unfold bind at 1. rewrite deliver_waiting.
      rewrite (installed_tracked c (to d) track Hd).
      cbn [flat_map]. unfold bridged at 1. rewrite Hd.
      destruct (carries_liveness c (to d)); rewrite call_waiting.
      * destruct (IH (at_time d + ConnDeadline env)%Z (at_time d)) as (tr & -> & Hw).
        eexists. split; [reflexivity|]. simpl. rewrite Hw. reflexivity.
      * destruct (IH dl (at_time d)) as (tr & -> & Hw).
        eexists. split; [reflexivity|]. simpl. rewrite Hw. reflexivity.
Qed.

Lemma fire_time_by_lower reset D ds : forall a dl,
  in_order a ds -> (Z.min dl (a + D) <= fire_time_by reset D dl ds)%Z.
Proof.
  induction ds as [|d ds IH]; intros a dl Hs; simpl; [lia|].
  destruct Hs as [H0 Hs].
  destruct (dl <=? at_time d)%Z; [lia|].
  destruct (reset (to d)).
  - specialize (IH (at_time d) (at_time d + D)%Z Hs). lia.
  - specialize (IH a dl (in_order_weaken _ _ _ H0 Hs)). lia.
Qed.








(** X8. In streaming mode, once the camera has opened the stream, and
    when every packet the transport delivers is for a session whose kind
    has a track, [Start] returns nil, and not before a full
    [ConnDeadline] has passed since it created the timer (the packets
    arriving in the order of their arrival times, none before the timer
    was created). *)
Theorem Start_waits_a_full_window env fuel c w vc ac st :
  reaches_setup env c = Some (vc, ac) ->
  camera_NewStream env vc ac
    (endpoint_at env (rand_pos w))
    (endpoint_at env (S (rand_pos w + 16 + 14))) = Ok st ->
  Forall (fun d => is_Some (track_for c (to d))) (deliveries env) ->
  in_order (now w) (deliveries env) ->
  result_of (Start env fuel (c, w)) = Val None /\
  (now w + ConnDeadline env <= now (world_of (Start env fuel (c, w))))%Z.
Proof.
  intros Hs Ho Ht Hord.
  rewrite (Start_streaming env fuel c w vc ac Hs), Ho. unfold wired_state.
  destruct (await_tracked env c w st (deliveries env) Ht
              (now w + ConnDeadline env)%Z (now w)) as (tr & -> & _).
  split; [reflexivity|].
  cbn [after_await world_of fst snd waiting now].
  pose proof (fire_time_by_lower (carries_liveness c) (ConnDeadline env)
                (deliveries env) (now w) (now w + ConnDeadline env)%Z Hord).
  lia.
Qed.

Lemma Start_waits_a_full_window_witness :
  result_of (Start camera 0 (both_tracks, world0)) = Val None /\
  (5000000000 <= now (world_of (Start camera 0 (both_tracks, world0))))%Z.
Proof.
  apply (Start_waits_a_full_window camera 0 both_tracks world0 h264 opus
           {| stream_id := 1 |} eq_refl eq_refl).
  - repeat constructor; eexists; reflexivity.
  - simpl. lia.
Defined.

Lemma Stop_result env c w :
  result_of (Stop env (c, w)) = Val (hap_Close env).
Proof.
  destruct (videoSession c) eqn:Ev, (audioSession c) eqn:Ea;
    unfold Stop, DelSession; unfold_M; simpl; rewrite Ev; simpl; rewrite Ea;
    reflexivity.
Qed.

Lemma filter_added (l : list ptr) v a :
  Forall (fun x => x <> v) l -> Forall (fun x => x <> a) l -> v <> a ->
  filter (fun x => x <> a) (filter (fun x => x <> v) ((l ++ [v]) ++ [a])) = l.
Proof.
  intros Hv Ha Hne.
  induction l as [|x l IH]; cbn [app].
  - rewrite filter_cons. case_decide; [congruence|].
    rewrite filter_cons. case_decide; [|congruence].
    rewrite filter_nil, filter_cons. case_decide; [congruence|].
    apply filter_nil.
  - inversion Hv; subst. inversion Ha; subst.
    rewrite filter_cons. case_decide; [|congruence].
    rewrite filter_cons. case_decide; [|congruence].
    rewrite IH by assumption. reflexivity.
Qed.

(** X9. [Stop] after a [Start] that streamed takes out of the registry
    the two sessions [Start] had added and nothing else: the registry is
    again what it was before [Start] (the registry holding only sessions
    that existed then), and [Stop] returns what closing the accessory
    connection returns. *)
Theorem Stop_after_Start_restores_registry env env' fuel c w vc ac st :
  reaches_setup env c = Some (vc, ac) ->
  camera_NewStream env vc ac
    (endpoint_at env (rand_pos w))
    (endpoint_at env (S (rand_pos w + 16 + 14))) = Ok st ->
  Forall (fun p => p < length (heap w)) (registry w) ->
  registry (world_of (Start env fuel (c, w))) =
    (registry w ++ [video_ptr w]) ++ [audio_ptr env w] /\
  registry (world_of (Stop env' (state_of (Start env fuel (c, w))))) = registry w /\
  result_of (Stop env' (state_of (Start env fuel (c, w)))) = Val (hap_Close env').
Proof.
  intros Hs Ho Hwf.
  destruct (Start_streaming_end env fuel c w vc ac st Hs Ho)
    as (dl & t & tr & Hst & _).
  unfold world_of at 1. unfold state_of in *. rewrite Hst.
  split; [reflexivity|].
  split; [|apply (Stop_result env' (fst (waiting env c w st dl t))
                    (snd (waiting env c w st dl t)))].
  pose proof (Stop_registry env' (fst (waiting env c w st dl t))
                (snd (waiting env c w st dl t))) as HS.
  unfold world_of, state_of in *. cbn [fst snd] in HS.
  change (fst (waiting env c w st dl t), snd (waiting env c w st dl t))
    with (waiting env c w st dl t) in HS.
  rewrite HS.
  cbn [waiting fst snd set_stream setup_client set_audioSession set_videoSession
         videoSession audioSession registry].
  assert (Hv : Forall (fun x => x <> video_ptr w) (registry w)).
  { apply Forall_forall. intros x Hx ->. rewrite Forall_forall in Hwf.
    specialize (Hwf _ Hx). unfold video_ptr in Hwf. lia. }
  assert (Ha : Forall (fun x => x <> audio_ptr env w) (registry w)).
  { apply Forall_forall. intros x Hx ->. rewrite Forall_forall in Hwf.
    specialize (Hwf _ Hx). rewrite audio_ptr_next in Hwf.
    unfold video_ptr in Hwf. lia. }
  apply filter_added; [exact Hv | exact Ha | rewrite audio_ptr_next; lia].
Qed.

Lemma Stop_after_Start_restores_registry_witness :
  registry (world_of (Start camera 0 (both_tracks, world0))) = [0; 1] /\
  registry (world_of (Stop camera (state_of (Start camera 0 (both_tracks, world0)))))
    = [].
Proof.
  destruct (Stop_after_Start_restores_registry camera camera 0 both_tracks world0
              h264 opus {| stream_id := 1 |} eq_refl eq_refl (List.Forall_nil _))
    as (H1 & H2 & _).
  split; [exact H1 | exact H2].
Defined.

(** X10. [MarshalJSON] returns a value exactly when both session pointers
    are set, and then reports the sum of the two counters together with
    the cached medias and the receivers; otherwise it panics on the nil
    pointer.  Either way it changes nothing. *)
Theorem MarshalJSON_reports_iff_sessions env c w :
  ((exists info, result_of (MarshalJSON env (c, w)) = Val info) <->
   (exists v a vs as_,
      videoSession c = Some v /\ heap w !! v = Some vs /\
      audioSession c = Some a /\ heap w !! a = Some as_)) /\
  (forall v a vs as_,
     videoSession c = Some v -> heap w !! v = Some vs ->
     audioSession c = Some a -> heap w !! a = Some as_ ->
     result_of (MarshalJSON env (c, w)) =
       Val {| InfoType := "HomeKit active producer";
              InfoURL := hap_URL env;
              InfoMedias := Medias c;
              InfoReceivers := Receivers c;
              InfoRecv := int64 (Recv vs + Recv as_) |}) /\
  (result_of (MarshalJSON env (c, w)) = Panic nil_dereference \/
   exists info, result_of (MarshalJSON env (c, w)) = Val info) /\
  state_of (MarshalJSON env (c, w)) = (c, w) /\
  trace_of (MarshalJSON env (c, w)) = [].
Proof.
  unfold MarshalJSON, readRecv. unfold_M. simpl.
  destruct (videoSession c) as [v|] eqn:Ev; simpl.
  2:{ repeat split; auto.
      - intros [info H]; discriminate.
      - intros (v & a & vs & as_ & H & _); discriminate.
      - intros; discriminate. }
  destruct (heap w !! v) as [vs|] eqn:Hv; simpl.
  2:{ repeat split; auto.
      - intros [info H]; discriminate.
      - intros (v' & a & vs & as_ & [= <-] & H & _). congruence.
      - intros v' a vs as_ [= <-] H. congruence. }
  destruct (audioSession c) as [a|] eqn:Ea; simpl.
  2:{ repeat split; auto.
      - intros [info H]; discriminate.
      - intros (v' & a & vs' & as_ & _ & _ & H & _); discriminate.
      - intros; discriminate. }
  destruct (heap w !! a) as [as_|] eqn:Ha; simpl.
  2:{ repeat split; auto.
      - intros [info H]; discriminate.
      - intros (v' & a' & vs' & as_ & _ & _ & [= <-] & H). congruence.
      - intros v' a' vs' as_ _ _ [= <-] H. congruence. }
  repeat split; eauto 10.
  - intros v' a' vs' as' [= <-] H1 [= <-] H2.
    rewrite Hv in H1. rewrite Ha in H2.
    injection H1 as <-. injection H2 as <-. reflexivity.
Qed.

Lemma MarshalJSON_reports_iff_sessions_witness :
  exists info,
    result_of (MarshalJSON camera
                 (state_of (Start camera_declining 0 (both_tracks, world0))))
    = Val info.
Proof.
  destruct (MarshalJSON_reports_iff_sessions camera
              (client_of (Start camera_declining 0 (both_tracks, world0)))
              (world_of (Start camera_declining 0 (both_tracks, world0))))
    as [[_ H] _].
  apply H. eexists 0, 1, _, _. repeat split; reflexivity.
Defined.

End MoreBridge.

Section DialProperties.
Import Dialer Scenario2.

Lemma Get_absent query key :
  Forall (fun kv => fst kv <> key) query -> Get query key = "".
Proof.
  unfold Get. induction 1 as [|kv l Hk Hl IH]; [reflexivity|].
  simpl. destruct (String.eqb_spec (fst kv) key); [contradiction|]. exact IH.
Qed.

Lemma Get_first before key v after :
  Forall (fun kv => fst kv <> key) before ->
  Get (before ++ (key, v) :: after) key = v.
Proof.
  unfold Get. induction 1 as [|kv l Hk Hl IH]; simpl.
  - rewrite String.eqb_refl. reflexivity.
  - destruct (String.eqb_spec (fst kv) key); [contradiction|]. exact IH.
Qed.

(** X11. [Dial] fails exactly when [url.Parse] fails or the accessory
    refuses the protocol dial, and with that error; it checks nothing
    itself.  On success the connection carries the host and, for each of
    [device_id], [device_public], [client_id], [client_private], the first
    value the query gives for it, or the empty string when the parameter
    is missing (the keys being decoded from that), and the client holds
    no media, no receiver and no session. *)
Theorem Dial_outcome net rawURL :
  (forall err, Dial net rawURL = Err err <->
     url_Parse net rawURL = Err err \/
     exists u, url_Parse net rawURL = Ok u /\
               hap_Dial net (connection net u) = Some err) /\
  (forall conn c, Dial net rawURL = Ok (conn, c) ->
     exists u,
       url_Parse net rawURL = Ok u /\
       hap_Dial net conn = None /\
       DeviceAddress conn = Host u /\
       DeviceID conn = Get (Query u) "device_id" /\
       DevicePublic conn = hap_DecodeKey net (Get (Query u) "device_public") /\
       ClientID conn = Get (Query u) "client_id" /\
       ClientPrivate conn = hap_DecodeKey net (Get (Query u) "client_private") /\
       (forall key before v after,
          Query u = before ++ (key, v) :: after ->
          Forall (fun kv => fst kv <> key) before ->
          Get (Query u) key = v) /\
       (forall key,
          Forall (fun kv => fst kv <> key) (Query u) -> Get (Query u) key = "") /\
       Medias c = None /\ Receivers c = None /\
       videoSession c = None /\ audioSession c = None).
Proof.
  unfold Dial. split.
  - intros err. destruct (url_Parse net rawURL) as [u|e].
    + destruct (hap_Dial net (connection net u)) as [e|] eqn:Hd.
      * split.
        -- intros [= ->]. right. exists u. auto.
        -- intros [H|(u' & [= <-] & H)]; [discriminate|]. congruence.
      * split; [discriminate|].
        intros [H|(u' & [= <-] & H)]; [discriminate|]. congruence.
    + split.
      * intros [= ->]. left. reflexivity.
      * intros [[= ->]|(u & H & _)]; [reflexivity|discriminate].
  - intros conn c. destruct (url_Parse net rawURL) as [u|e]; [|discriminate].
    destruct (hap_Dial net (connection net u)) eqn:Hd; [discriminate|].
    intros [= <- <-]. exists u.
    split; [reflexivity|]. split; [exact Hd|].
    do 5 (split; [reflexivity|]).
    split; [intros key before v after -> Hb; apply Get_first, Hb|].
    split; [intros key Hk; apply Get_absent, Hk|].
    repeat split; reflexivity.
Qed.

Lemma Dial_outcome_witness :
  exists conn, Dial lenient "homekit://192.168.1.9:5001" = Ok (conn, dialed) /\
               DeviceID conn = "".
Proof.
  destruct (Dial_outcome lenient "homekit://192.168.1.9:5001") as [_ H].
  destruct (H (connection lenient bare_url) dialed eq_refl)
    as (u & Hu & _ & _ & Hid & _ & _ & _ & _ & Habs & _).
  exists (connection lenient bare_url). split; [reflexivity|].
  rewrite Hid. apply Habs. injection Hu as <-. constructor.
Defined.

End DialProperties.

Section MorePacer.
Import Pacer.
Local Open Scope Z_scope.

Lemma elapsed_upper now_ first :
  first <= now_ -> elapsed now_ first * Second <= (now_ - first) * sampleRate.
Proof.
  unfold elapsed, Sub, Second, sampleRate. intros Hle.
  set (d := Z.max minInt64 (Z.min maxInt64 (now_ - first))).
  assert (Hd : 0 <= d <= now_ - first) by (unfold d, minInt64, maxInt64; lia).
  pose proof (int64_le (d * 16000) ltac:(lia)) as Hi.
  destruct (Z_lt_le_dec (int64 (d * 16000)) 0) as [Hneg|Hpos].
  - pose proof (Z.quot_opp_l (- int64 (d * 16000)) 1000000000 ltac:(lia)) as Hq.
    rewrite Z.opp_involutive in Hq.
    pose proof (Z.quot_pos (- int64 (d * 16000)) 1000000000 ltac:(lia) ltac:(lia)).
    lia.
  - rewrite Z.quot_div_nonneg by lia.
    pose proof (Z.mul_div_le (int64 (d * 16000)) 1000000000 ltac:(lia)). lia.
Qed.

(** The running total never runs ahead of the clock once a second packet
    has been passed on. *)
Lemma feed_rate t0 tmax input : forall st,
  0 < send st ->
  firstTime st = t0 ->
  send st + sampleSize * Z.of_nat (length input) <= maxInt64 ->
  Forall (fun tp => t0 <= fst tp <= tmax) input ->
  (send st <= sampleSize \/ send st * Second <= (tmax - t0) * sampleRate) ->
  send (snd (feed st input)) <= sampleSize \/
  send (snd (feed st input)) * Second <= (tmax - t0) * sampleRate.
Proof.
  induction input as [|[t q] input IH]; intros st Hpos Hf Hfit Ht Hq;
    [exact Hq|].
  simpl length in Hfit. inversion Ht as [|? ? Hb Ht']; subst. simpl in Hb.
  simpl feed. unfold limitter.
  replace (send st =? 0) with false by (symmetry; apply Z.eqb_neq; lia).
  simpl negb. cbv iota.
  rewrite (int64_small (send st + sampleSize))
    by (unfold sampleSize, minInt64, maxInt64 in *; lia).
  destruct (send st + sampleSize >? elapsed t (firstTime st)) eqn:Hc.
  - cbv beta iota zeta. apply IH; auto. unfold sampleSize in *. lia.
  - cbv beta iota zeta. cbn [fst snd].
    apply IH; cbn [send firstTime]; unfold sampleSize in *; try lia; auto.
    right.
    assert (He : send st + 480 <= elapsed t (firstTime st)).
    { destruct (Z.gtb_spec (send st + 480) (elapsed t (firstTime st)));
        [discriminate|lia]. }
    pose proof (elapsed_upper t (firstTime st) ltac:(lia)) as Hu.
    unfold Second, sampleRate in *. nia.
Qed.

(** X12. The pacer limits the rate: on a monotonic clock, and while the
    running total fits an int64, as soon as more than one packet has been
    passed on, 480 samples per packet passed on never exceed the samples
    of time elapsed since the first packet, that is, at most one packet
    per 30 ms on average. *)
Theorem limitter_rate_bound t0 p0 rest tmax :
  Forall (fun tp => t0 <= fst tp <= tmax) rest ->
  sampleSize * (Z.of_nat (length rest) + 2) <= maxInt64 ->
  (2 <= length (forwarded ((t0, p0) :: rest)))%nat ->
  sampleSize * Z.of_nat (length (forwarded ((t0, p0) :: rest))) * Second
    <= (tmax - t0) * sampleRate.
Proof.
  intros Ht Hfit Hlen.
  unfold forwarded in *. cbn [feed] in *.
  rewrite limitter_first in * by reflexivity. cbn [fst snd length] in *.
  set (st1 := {| send := 480; firstTime := t0 |}) in *.
  destruct (feed_state rest st1) as (_ & Hs & _);
    [reflexivity | unfold st1, sampleSize, maxInt64 in *; cbn [send]; lia |].
  destruct (feed_rate t0 tmax rest st1) as [Hq|Hq]; auto;
    try (unfold st1, sampleSize, maxInt64 in *; cbn [send]; lia).
  - rewrite Hs in Hq. unfold st1, sampleSize in *. cbn [send] in Hq. lia.
  - rewrite Hs in Hq. unfold st1, sampleSize in *. cbn [send] in Hq. lia.
Qed.

Lemma limitter_rate_bound_witness :
  sampleSize * Z.of_nat (length (forwarded [(0, silence); (10000000, silence);
                                             (60000000, silence)])) * Second
    <= (60000000 - 0) * sampleRate.
Proof.
  apply (limitter_rate_bound 0 silence
           [(10000000, silence); (60000000, silence)] 60000000).
  - repeat constructor; simpl; lia.
  - vm_compute. discriminate.
  - vm_compute. lia.
Defined.

(** X13. The pacer only drops and restamps: the payloads that reach the
    handler are, in the same order, a selection of the payloads given; it
    never reorders, repeats or alters one. *)
Theorem limitter_payloads_sublist (input : list (Z * Packet)) : forall st,
  map Payload (fst (feed st input)) `sublist_of`
    map (fun tp => Payload (snd tp)) input.
Proof.
  induction input as [|[t p] input IH]; intros st; simpl.
  - constructor.
  - destruct (limitter_cases st t p) as [Hd|[first Hf]].
    + rewrite Hd. apply sublist_cons. apply IH.
    + rewrite Hf. simpl. apply sublist_skip. apply IH.
Qed.

End MorePacer.

Section AsciiProperties.
Import AsciiWriter.
Local Open Scope Z_scope.

Lemma tables_length :
  length x256r = 256%nat /\ length x256g = 256%nat /\ length x256b = 256%nat.
Proof. repeat split; reflexivity. Qed.

Lemma tables_bytes :
  Forall (fun x => 0 <= x < 256) x256r /\
  Forall (fun x => 0 <= x < 256) x256g /\
  Forall (fun x => 0 <= x < 256) x256b.
Proof.
  repeat split; apply Forall_forall; intros x Hx;
    apply list_elem_of_In in Hx;
    assert (H : forallb (fun x => (0 <=? x) && (x <? 256)) x256r = true /\
                forallb (fun x => (0 <=? x) && (x <? 256)) x256g = true /\
                forallb (fun x => (0 <=? x) && (x <? 256)) x256b = true)
      by (repeat split; vm_compute; reflexivity);
    destruct H as (Hr & Hg & Hb);
    rewrite forallb_forall in Hr, Hg, Hb;
    first [specialize (Hr _ Hx); lia | specialize (Hg _ Hx); lia
          | specialize (Hb _ Hx); lia].
Qed.

Lemma diff_Some r g b i :
  (i < 256)%nat ->
  exists xr xg xb,
    x256r !! i = Some xr /\ x256g !! i = Some xg /\ x256b !! i = Some xb /\
    0 <= xr < 256 /\ 0 <= xg < 256 /\ 0 <= xb < 256 /\
    diff r g b i = Some (uint8 (r - xr) + uint8 (g - xg) + uint8 (b - xb)).
Proof.
  intros Hi. destruct tables_length as (Lr & Lg & Lb).
  destruct tables_bytes as (Br & Bg & Bb).
  destruct (lookup_lt_is_Some_2 x256r i ltac:(lia)) as [xr Hr].
  destruct (lookup_lt_is_Some_2 x256g i ltac:(lia)) as [xg Hg].
  destruct (lookup_lt_is_Some_2 x256b i ltac:(lia)) as [xb Hb].
  exists xr, xg, xb.
  rewrite Forall_forall in Br, Bg, Bb.
  pose proof (Br _ (list_elem_of_lookup_2 _ _ _ Hr)).
  pose proof (Bg _ (list_elem_of_lookup_2 _ _ _ Hg)).
  pose proof (Bb _ (list_elem_of_lookup_2 _ _ _ Hb)).
  repeat split; try lia; try assumption.
  unfold diff. rewrite Hr, Hg, Hb. f_equal.
  unfold uint16, uint8.
  pose proof (Z.mod_pos_bound (r - xr) (2 ^ 8) ltac:(lia)).
  pose proof (Z.mod_pos_bound (g - xg) (2 ^ 8) ltac:(lia)).
  pose proof (Z.mod_pos_bound (b - xb) (2 ^ 8) ltac:(lia)).
  rewrite (Z.mod_small ((r - xr) mod 2 ^ 8) (2 ^ 16)) by lia.
  rewrite (Z.mod_small ((g - xg) mod 2 ^ 8) (2 ^ 16)) by lia.
  rewrite (Z.mod_small ((b - xb) mod 2 ^ 8) (2 ^ 16)) by lia.
  rewrite Z.mod_small by lia. reflexivity.
Qed.

Lemma diff_bound r g b i d : diff r g b i = Some d -> 0 <= d < 768.
Proof.
  intros H.
  assert (Hi : (i < 256)%nat).
  { destruct (Nat.lt_ge_cases i 256) as [|Hge]; [assumption|].
    unfold diff in H. rewrite (lookup_ge_None_2 x256r i) in H; [discriminate|].
    rewrite (proj1 tables_length). exact Hge. }
  destruct (diff_Some r g b i Hi) as (xr & xg & xb & _ & _ & _ & _ & _ & _ & Hd).
  rewrite Hd in H. injection H as <-. unfold uint8.
  pose proof (Z.mod_pos_bound (r - xr) (2 ^ 8) ltac:(lia)).
  pose proof (Z.mod_pos_bound (g - xg) (2 ^ 8) ltac:(lia)).
  pose proof (Z.mod_pos_bound (b - xb) (2 ^ 8) ltac:(lia)).
  lia.
Qed.

Lemma diff_None r g b i : (256 <= i)%nat -> diff r g b i = None.
Proof.
  intros Hi. unfold diff.
  rewrite (lookup_ge_None_2 x256r i); [reflexivity|].
  rewrite (proj1 tables_length). exact Hi.
Qed.

(** What the loop has established after looking at the entries before [i]. *)
Definition searched (r g b : Z) (i : nat) (best index : Z) : Prop :=
  (i = 0%nat /\ best = 65535 /\ index = 0) \/
  exists j, index = Z.of_nat j /\ (j < i)%nat /\
            diff r g b j = Some best /\
            (forall k dk, (k < i)%nat -> diff r g b k = Some dk -> best <= dk) /\
            (forall k dk, (k < j)%nat -> diff r g b k = Some dk -> best < dk).

Lemma search_spec r g b todo : forall i best index,
  (i + todo <= 256)%nat ->
  searched r g b i best index ->
  exists best' index',
    search r g b todo i best index = Val index' /\
    searched r g b (i + todo) best' index'.
Proof.
  induction todo as [|todo IH]; intros i best index Hb Hinv.
  - exists best, index. rewrite Nat.add_0_r. split; [reflexivity|exact Hinv].
  - simpl.
    destruct (diff_Some r g b i ltac:(lia)) as (xr & xg & xb & _ & _ & _ & _ & _ & _ & Hd).
    rewrite Hd. set (d := uint8 (r - xr) + uint8 (g - xg) + uint8 (b - xb)) in *.
    pose proof (diff_bound r g b i d Hd) as Hdb.
    replace (i + S todo)%nat with (S i + todo)%nat by lia.
    destruct (Z.ltb_spec d best) as [Hlt|Hge].
    + apply IH; [lia|]. right. exists i.
      split. { unfold uint8. rewrite Z.mod_small; lia. }
      split; [lia|]. split; [exact Hd|].
      destruct Hinv as [(-> & -> & ->)|(j & -> & Hj & Hdj & Hmin & Hfirst)].
      * split; intros k dk Hk Hdk; [|lia].
        assert (k = 0%nat) by lia. subst k. rewrite Hd in Hdk.
        injection Hdk as <-. lia.
      * split; intros k dk Hk Hdk.
        -- destruct (Nat.eq_dec k i) as [->|Hne].
           ++ rewrite Hd in Hdk. injection Hdk as <-. lia.
           ++ specialize (Hmin k dk ltac:(lia) Hdk). lia.
        -- specialize (Hmin k dk ltac:(lia) Hdk). lia.
    + apply IH; [lia|].
      destruct Hinv as [(-> & -> & ->)|(j & -> & Hj & Hdj & Hmin & Hfirst)];
        [lia|].
      right. exists j. split; [reflexivity|]. split; [lia|].
      split; [exact Hdj|]. split; [|exact Hfirst].
      intros k dk Hk Hdk.
      destruct (Nat.eq_dec k i) as [->|Hne].
      * rewrite Hd in Hdk. injection Hdk as <-. lia.
      * apply (Hmin k dk); [lia|exact Hdk].
Qed.

(** X14. For [n] from 1 to 256, [xterm256color] returns an index below [n]
    that minimises, over the first [n] palette entries, the sum of the
    three channel differences taken in [uint8] (so each wraps around),
    and among the minimising entries the first one.  In particular with
    [n = 255], as in the 256-colour mode, entry 255 is never returned. *)
Theorem xterm256color_first_minimum r g b n :
  1 <= n <= 256 ->
  exists j dj,
    xterm256color r g b n = Val (Z.of_nat j) /\
    Z.of_nat j < n /\
    diff r g b j = Some dj /\
    (forall k dk, Z.of_nat k < n -> diff r g b k = Some dk -> dj <= dk) /\
    (forall k dk, (k < j)%nat -> diff r g b k = Some dk -> dj < dk).
Proof.
  intros Hn. unfold xterm256color.
  destruct (search_spec r g b (Z.to_nat n) 0 65535 0 ltac:(lia))
    as (best & index & Hs & Hinv).
  { left. auto. }
  rewrite Hs.
  destruct Hinv as [(H0 & _)|(j & -> & Hj & Hdj & Hmin & Hfirst)]; [lia|].
  exists j, best. split; [reflexivity|]. split; [lia|]. split; [exact Hdj|].
  split; [|exact Hfirst].
  intros k dk Hk Hdk. apply (Hmin k dk); [lia|exact Hdk].
Qed.

Lemma xterm256color_first_minimum_witness :
  exists j, xterm256color 238 238 238 255 = Val (Z.of_nat j) /\ Z.of_nat j < 255.
Proof.
  destruct (xterm256color_first_minimum 238 238 238 255 ltac:(lia))
    as (j & dj & Hr & Hj & _).
  exists j. split; [exact Hr | exact Hj].
Defined.

(** X15. A colour that is itself one of the first [n] palette entries is
    mapped to an entry of exactly that colour, the first such. *)
Theorem xterm256color_exact r g b n i :
  1 <= n <= 256 ->
  0 <= r < 256 -> 0 <= g < 256 -> 0 <= b < 256 ->
  Z.of_nat i < n ->
  x256r !! i = Some r -> x256g !! i = Some g -> x256b !! i = Some b ->
  exists j,
    xterm256color r g b n = Val (Z.of_nat j) /\
    (j <= i)%nat /\
    x256r !! j = Some r /\ x256g !! j = Some g /\ x256b !! j = Some b /\
    (forall k, (k < j)%nat ->
       ~ (x256r !! k = Some r /\ x256g !! k = Some g /\ x256b !! k = Some b)).
Proof.
  intros Hn Hr Hg Hb Hi Hxr Hxg Hxb.
  destruct (search_spec r g b (Z.to_nat n) 0 65535 0 ltac:(lia))
    as (dj & index & Hres & Hinv); [left; auto|].
  destruct Hinv as [(H0 & _)|(j & -> & Hj & Hdj & Hmin' & Hfirst)]; [lia|].
  fold (xterm256color r g b n) in Hres.
  assert (Hmin : forall k dk, Z.of_nat k < n -> diff r g b k = Some dk -> dj <= dk)
    by (intros k dk Hk Hdk; apply (Hmin' k dk); [lia|exact Hdk]).
  assert (Hdi : diff r g b i = Some 0).
  { unfold diff. rewrite Hxr, Hxg, Hxb. cbv beta iota.
    replace (r - r) with 0 by lia. replace (g - g) with 0 by lia.
    replace (b - b) with 0 by lia. reflexivity. }
  pose proof (Hmin i 0 Hi Hdi) as Hle.
  pose proof (diff_bound r g b j dj Hdj) as Hdb.
  assert (dj = 0) by lia. subst dj.
  exists j. split; [exact Hres|].
  split.
  { destruct (Nat.le_gt_cases j i) as [|Hgt]; [assumption|].
    specialize (Hfirst i 0 Hgt Hdi). lia. }
  destruct (diff_Some r g b j ltac:(lia))
    as (xr & xg & xb & Hjr & Hjg & Hjb & Br & Bg & Bb & Hd).
  rewrite Hd in Hdj. injection Hdj as Hsum.
  unfold uint8 in Hsum.
  pose proof (Z.mod_pos_bound (r - xr) (2 ^ 8) ltac:(lia)).
  pose proof (Z.mod_pos_bound (g - xg) (2 ^ 8) ltac:(lia)).
  pose proof (Z.mod_pos_bound (b - xb) (2 ^ 8) ltac:(lia)).
  assert (Hzr : (r - xr) mod 2 ^ 8 = 0) by lia.
  assert (Hzg : (g - xg) mod 2 ^ 8 = 0) by lia.
  assert (Hzb : (b - xb) mod 2 ^ 8 = 0) by lia.
  assert (Heq : forall x y, 0 <= x < 256 -> 0 <= y < 256 ->
                  (x - y) mod 2 ^ 8 = 0 -> x = y).
  { intros x y Hx Hy Hm.
    apply Z.mod_divide in Hm; [|lia]. destruct Hm as [q Hq]. lia. }
  assert (xr = r) by (symmetry; apply Heq; assumption).
  assert (xg = g) by (symmetry; apply Heq; assumption).
  assert (xb = b) by (symmetry; apply Heq; assumption).
  subst xr xg xb.
  repeat split; try assumption.
  intros k Hk (Hkr & Hkg & Hkb).
  assert (Hdk : diff r g b k = Some 0).
  { unfold diff. rewrite Hkr, Hkg, Hkb. cbv beta iota.
    replace (r - r) with 0 by lia. replace (g - g) with 0 by lia.
    replace (b - b) with 0 by lia. reflexivity. }
  specialize (Hfirst k 0 Hk Hdk). lia.
Qed.

Lemma xterm256color_exact_witness :
  exists j, xterm256color 0 0 0 255 = Val (Z.of_nat j) /\ (j <= 16)%nat.
Proof.
  destruct (xterm256color_exact 0 0 0 255 16 ltac:(lia) ltac:(lia) ltac:(lia)
              ltac:(lia) ltac:(lia) eq_refl eq_refl eq_refl)
    as (j & Hr & Hj & _).
  exists j. split; [exact Hr | exact Hj].
Defined.

Lemma search_past_tables r g b todo : forall i best index,
  (i <= 256)%nat -> (256 < i + todo)%nat ->
  search r g b todo i best index = Panic index_out_of_range.
Proof.
  induction todo as [|todo IH]; intros i best index Hi Hp; [lia|].
  simpl. destruct (Nat.eq_dec i 256%nat) as [->|Hne].
  - rewrite diff_None by lia. reflexivity.
  - destruct (diff_Some r g b i ltac:(lia)) as (xr & xg & xb & _ & _ & _ & _ & _ & _ & Hd).
    rewrite Hd. destruct (_ <? best); apply IH; lia.
Qed.

(** X16. Outside that range: with [n] zero or negative the loop does not
    run and [xterm256color] returns index 0; with [n] above 256 it runs
    off the end of the 256-entry tables and panics. *)
Theorem xterm256color_out_of_range r g b n :
  (n <= 0 -> xterm256color r g b n = Val 0) /\
  (256 < n -> xterm256color r g b n = Panic index_out_of_range).
Proof.
  unfold xterm256color. split; intros Hn.
  - replace (Z.to_nat n) with 0%nat by lia. reflexivity.
  - apply search_past_tables; lia.
Qed.

Lemma xterm256color_out_of_range_witness :
  xterm256color 1 2 3 (-1) = Val 0 /\
  xterm256color 1 2 3 257 = Panic index_out_of_range.
Proof.
  destruct (xterm256color_out_of_range 1 2 3 (-1)) as [H1 _].
  destruct (xterm256color_out_of_range 1 2 3 257) as [_ H2].
  split; [apply H1; lia | apply H2; lia].
Defined.

(** X17. For 16-bit channel values, as [RGBA()] returns them, the weighted
    sum in [gray] does not overflow its [uint32]: the level is
    [(19595 r + 38470 g + 7471 b + 32768) / 2^24], it fits a byte, it
    grows with each channel, and for a grey pixel it is the high byte of
    the channel. *)
Theorem gray_level_range r g b :
  0 <= r <= 65535 -> 0 <= g <= 65535 -> 0 <= b <= 65535 ->
  gray_level r g b = (19595 * r + 38470 * g + 7471 * b + 32768) / 2 ^ 24 /\
  0 <= gray_level r g b <= 255 /\
  (forall r' g' b',
     r <= r' <= 65535 -> g <= g' <= 65535 -> b <= b' <= 65535 ->
     gray_level r g b <= gray_level r' g' b') /\
  (r = g -> g = b -> gray_level r g b = r / 256).
Proof.
  assert (Hexact : forall r g b,
             0 <= r <= 65535 -> 0 <= g <= 65535 -> 0 <= b <= 65535 ->
             gray_level r g b = (19595 * r + 38470 * g + 7471 * b + 32768) / 2 ^ 24).
  { clear. intros r g b Hr Hg Hb. unfold gray_level, uint32.
    change (Z.shiftl 1 15) with 32768.
    rewrite (Z.mod_small (19595 * r)), (Z.mod_small (38470 * g)),
      (Z.mod_small (7471 * b)) by lia.
    rewrite (Z.mod_small (19595 * r + 38470 * g)) by lia.
    rewrite (Z.mod_small (19595 * r + 38470 * g + 7471 * b)) by lia.
    rewrite Z.mod_small by lia.
    apply Z.shiftr_div_pow2. lia. }
  intros Hr Hg Hb. rewrite (Hexact r g b Hr Hg Hb).
  split; [reflexivity|]. split.
  { split; [apply Z.div_pos; lia|].
    apply Z.lt_succ_r. apply Z.div_lt_upper_bound; lia. }
  split.
  { intros r' g' b' Hr' Hg' Hb'.
    rewrite (Hexact r' g' b') by lia. apply Z.div_le_mono; lia. }
  intros -> ->.
  replace (19595 * b + 38470 * b + 7471 * b + 32768) with (b * 65536 + 32768) by lia.
  change (2 ^ 24) with (65536 * 256).
  rewrite <- Z.div_div by lia.
  rewrite Z.div_add_l by lia.
  change (32768 / 65536) with 0. rewrite Z.add_0_r. reflexivity.
Qed.

Lemma gray_level_range_witness :
  gray_level 65535 65535 65535 = 65535 / 256.
Proof.
  destruct (gray_level_range 65535 65535 65535 ltac:(lia) ltac:(lia) ltac:(lia))
    as (_ & _ & _ & H).
  apply H; reflexivity.
Defined.

End AsciiProperties.
